(** * LandCoverNet download notebook: catalog walk and asset download

    A shallow embedding of the functions of the notebook
    [notebooks/radiant-mlhub-landcovernet.ipynb] (cell "Downloading Items"):
    [download_s3], [download_http], [get_download_uri], [download],
    [get_source_item_assets], [download_source_and_labels], [get_items],
    and of the driver cells that call them.

    The Python code talks to three collaborators (the catalog API, the
    redirect endpoint with the storage back ends, the local file system) and
    mutates one shared list.  The remote side is a record [World] of
    functions; the local side is threaded through a state and exception
    monad whose state holds the Python list objects, the directories made
    on disk and a chronological log of the requests, console messages and
    file writes. *)

From Stdlib Require Import ZArith Lia String Ascii List DecimalString.
From stdpp Require Import base option list gmap strings.

Import ListNotations.
Local Open Scope string_scope.
Local Open Scope list_scope.
Local Open Scope Z_scope.

(** ** Strings, as the Python code uses them *)

Module Str.

(** [s.split(sep)] for a one-character separator: never empty. *)
Fixpoint split (sep : ascii) (s : string) : list string :=
  match s with
  | EmptyString => [EmptyString]
  | String c s' =>
      if Ascii.eqb c sep then EmptyString :: split sep s'
      else match split sep s' with
           | x :: xs => String c x :: xs
           | [] => [String c EmptyString]
           end
  end.

(** [l[-1]] on the result of a split. *)
Definition last (l : list string) : string := List.last l EmptyString.

(** [s[1:]] *)
Definition drop1 (s : string) : string :=
  match s with
  | EmptyString => EmptyString
  | String _ s' => s'
  end.

(** [s.startswith(c)] and [s.endswith(c)] for a one-character [c]. *)
Definition startswith (c : ascii) (s : string) : bool :=
  match s with
  | String d _ => Ascii.eqb d c
  | EmptyString => false
  end.

Fixpoint endswith (c : ascii) (s : string) : bool :=
  match s with
  | EmptyString => false
  | String d EmptyString => Ascii.eqb d c
  | String _ s' => endswith c s'
  end.

(** [s.partition(c)]: the part before the first [c] and, when [c] occurs,
    the part after it. *)
Fixpoint cut (c : ascii) (s : string) : string * option string :=
  match s with
  | EmptyString => (EmptyString, None)
  | String d s' =>
      if Ascii.eqb d c then (EmptyString, Some s')
      else let '(a, b) := cut c s' in (String d a, b)
  end.

(** The prefix of [s] before the first character satisfying [stop], and
    the rest beginning at that character. *)
Fixpoint span_until (stop : ascii -> bool) (s : string) : string * string :=
  match s with
  | EmptyString => (EmptyString, EmptyString)
  | String d s' =>
      if stop d then (EmptyString, s)
      else let '(a, b) := span_until stop s' in (String d a, b)
  end.

Definition forallb (p : ascii -> bool) (s : string) : bool :=
  List.forallb p (list_ascii_of_string s).

Definition is_upper (c : ascii) : bool :=
  let n := nat_of_ascii c in (Nat.leb 65 n && Nat.leb n 90)%bool.
Definition is_lower (c : ascii) : bool :=
  let n := nat_of_ascii c in (Nat.leb 97 n && Nat.leb n 122)%bool.
Definition is_digit (c : ascii) : bool :=
  let n := nat_of_ascii c in (Nat.leb 48 n && Nat.leb n 57)%bool.

Definition lower_ascii (c : ascii) : ascii :=
  if is_upper c then ascii_of_nat (nat_of_ascii c + 32) else c.

(** [s.lower()] on ASCII text. *)
Fixpoint lower (s : string) : string :=
  match s with
  | EmptyString => EmptyString
  | String c s' => String (lower_ascii c) (lower s')
  end.

(** Decimal rendering of a natural number, left-padded with zeros to
    [width] digits, as ['{:0>width}'.format(n)]. *)
Definition zfill (width : nat) (n : nat) : string :=
  let digits := NilZero.string_of_uint (Nat.to_uint n) in
  string_of_list_ascii
    (List.repeat "0"%char (width - String.length digits))
  ++ digits.

End Str.

(** ** [os.path.join] and [urllib.parse.urlparse]

    Library functions of the Python distribution (3.7, the kernel the
    notebook records), written out for the ASCII arguments the notebook
    passes. *)

(** [posixpath.join(a, b)]: an absolute [b] replaces [a]; otherwise the two
    are concatenated, with a separator unless [a] is empty or already ends
    with one. *)
Definition os_path_join (a b : string) : string :=
  if Str.startswith "/" b then b
  else if (String.eqb a "" || Str.endswith "/" a)%bool then a ++ b
  else a ++ "/" ++ b.

Record ParseResult := {
  scheme : string;
  netloc : string;
  path : string
}.

Definition scheme_char (c : ascii) : bool :=
  (Str.is_upper c || Str.is_lower c || Str.is_digit c
   || Ascii.eqb c "+" || Ascii.eqb c "-" || Ascii.eqb c ".")%bool.

Definition netloc_stop (c : ascii) : bool :=
  (Ascii.eqb c "/" || Ascii.eqb c "?" || Ascii.eqb c "#")%bool.

(** [;parameters] are split off the last path segment for the schemes that
    take them (http and https among the ones the notebook looks at). *)
Definition strip_params (url : string) : string :=
  let segs := Str.split "/" url in
  let lastseg := Str.last segs in
  let kept := fst (Str.cut ";" lastseg) in
  String.concat "/" (List.removelast segs ++ [kept]).

Definition uses_params (sch : string) : bool :=
  (String.eqb sch "http" || String.eqb sch "https")%bool.

(** [urlparse(url)], fields [scheme], [netloc] and [path]: a leading run of
    scheme characters followed by a colon is the (lower-cased) scheme; after
    a double slash the network location runs to the next slash, question
    mark or hash; fragment and query are cut off the path. *)
Definition urlparse (url : string) : ParseResult :=
  let '(sch, rest) :=
    match Str.cut ":" url with
    | (pre, Some post) =>
        if (negb (String.eqb pre "") && Str.forallb scheme_char pre)%bool
        then (Str.lower pre, post) else (EmptyString, url)
    | (_, None) => (EmptyString, url)
    end in
  let '(loc, rest) :=
    match rest with
    | String "/" (String "/" r) => Str.span_until netloc_stop r
    | _ => (EmptyString, rest)
    end in
  let rest := fst (Str.cut "#" rest) in
  let rest := fst (Str.cut "?" rest) in
  {| scheme := sch;
     netloc := loc;
     path := if uses_params sch then strip_params rest else rest |}.

(** ** Data model

    The JSON documents are read through the keys the code reads.  A key
    that the code reads with a default ([.get(key, [])]) or compares with
    [None] is an [option]; a key it indexes is a plain field.  The
    [assets] and [links] of an item, which every catalog item carries, are
    plain fields too; the [labels] entry of the assets may be missing. *)

(** An entry of an [assets] mapping: [asset['href']]. *)
Record Asset := { asset_href : string }.

(** A link of a listing page: [link['rel']], [link['href']] (which may be
    JSON null). *)
Record PageLink := { plink_rel : string; plink_href : option string }.

(** A link of a catalog item. *)
Record ItemLink := { link_rel : string; link_href : string }.

(** A catalog item (a "feature" of a listing page):
    [feature['id']], [feature['properties'].get('labels', [])],
    [item.get('assets')] (in which [.get('labels')] is looked up),
    [item.get('links')]. *)
Record CatalogItem := {
  item_id : string;
  item_labels : option (list string);
  item_assets : list (string * Asset);
  item_links : list ItemLink
}.

(** A listing page: [collection.get('features', [])],
    [collection.get('links', [])]. *)
Record CatalogPage := {
  page_features : option (list CatalogItem);
  page_links : option (list PageLink)
}.

(** A source sub-item document: [r.json()['properties']['datetime']] and
    [r.json()['assets'].items()], in document order. *)
Record SubItem := {
  sub_datetime : string;
  sub_assets : list (string * Asset)
}.

(** The calendar date of an [arrow] time stamp. *)
Record Date := { year : nat; month : nat; day : nat }.

(** A download task [(href, path)], the batch of one sub-item (or of the
    label asset), and the list the walk accumulates. *)
Definition Task : Type := string * string.
Definition Batch : Type := list Task.

(** ** Exceptions, console messages, logged effects *)

Inductive exn :=
| ConnectionError      (* requests could not complete the request *)
| JSONDecodeError      (* r.json()[...] on a body that is not the document *)
| KeyError (k : string)
| TypeError            (* subscript of None *)
| ParserError          (* arrow.get on a string that is not a time stamp *)
| ClientError.         (* boto3 could not fetch the object *)

Inductive message :=
| Loading (uri : string)
| GettingAssets (id : string)
| CouldNotLoad (href : string).

(** What [print] writes for each message. *)
Definition render (m : message) : string :=
  match m with
  | Loading uri => "Loading " ++ uri ++ " ..."
  | GettingAssets id => "Getting Source Imagery Assets for " ++ id
  | CouldNotLoad href => "ERROR: Could Not Load " ++ href
  end.

Inductive event :=
| EvPrint (m : message)
| EvGet (uri : string)                       (* requests.get(uri, ...) *)
| EvMakedirs (dir : string)                  (* os.makedirs(dir) *)
| EvS3 (bucket key filename : string)        (* s3.download_file(...) *)
| EvWrite (filename : string) (chunks : list string).

(** ** The remote side *)

(** The outcome of one [requests.get]: the call raises, or a response
    arrives.  The body of a catalog response either is the expected document
    or is not (an error page, as sent with a 500 status: the code never
    looks at the status), hence the [option] in the fields below. *)
Inductive response (A : Type) :=
| Unreachable (e : exn)
| Answered (body : A).
Arguments Unreachable {A} e.
Arguments Answered {A} body.

Record World := {
  (** [requests.get(uri, headers=headers).json()] read as a listing page *)
  get_page : string -> response (option CatalogPage);
  (** the same request read as a source sub-item *)
  get_subitem : string -> response (option SubItem);
  (** [requests.get(uri, allow_redirects=False).headers]: the [Location]
      header when the response carries one *)
  get_location : string -> response (option string);
  (** [arrow.get(text)] *)
  arrow_get : string -> option Date;
  (** the object behind bucket and key *)
  s3_object : string -> string -> option string;
  (** [requests.get(uri).iter_content(...)]: the chunks of the body *)
  http_chunks : string -> response (list string)
}.

(** ** The local side: a state and exception monad *)

Definition loc : Type := nat.

Record state := {
  heap : gmap loc (list Batch);   (* Python list objects, by identity *)
  next_loc : loc;
  dirs : gset string;             (* directories that exist *)
  log : list event                (* oldest first *)
}.

Inductive result (A : Type) :=
| Ret (a : A) (s : state)
| Exn (e : exn) (s : state)
| OutOfFuel.
Arguments Ret {A} a s.
Arguments Exn {A} e s.
Arguments OutOfFuel {A}.

Definition M (A : Type) : Type := state -> result A.

Definition ret {A} (a : A) : M A := fun s => Ret a s.
Definition raise {A} (e : exn) : M A := fun s => Exn e s.
Definition bind {A B} (m : M A) (k : A -> M B) : M B :=
  fun s => match m s with
           | Ret a s' => k a s'
           | Exn e s' => Exn e s'
           | OutOfFuel => OutOfFuel
           end.

Notation "'let*' x ':=' m 'in' k" := (bind m (fun x => k))
  (at level 10, x pattern, m at level 100, k at level 200).
Notation "m '>>' k" := (bind m (fun _ => k))
  (at level 90, right associativity).

(** [try: m except: h] with a bare [except]. *)
Definition try_except {A} (m : M A) (h : M A) : M A :=
  fun s => match m s with
           | Exn _ s' => h s'
           | r => r
           end.

(** A state with more events logged. *)
Definition logged (es : list event) (s : state) : state :=
  {| heap := heap s; next_loc := next_loc s; dirs := dirs s;
     log := log s ++ es |}.

Definition emit (e : event) : M unit := fun s => Ret tt (logged [e] s).

Definition print (m : message) : M unit := emit (EvPrint m).

(** [os.path.exists(p)] and [os.makedirs(p)] on directories, which are
    known by the path strings the code makes them with. *)
Definition os_path_exists (p : string) : M bool :=
  fun s => Ret (bool_decide (p ∈ dirs s)) s.

Definition os_makedirs (p : string) : M unit :=
  fun s => Ret tt {| heap := heap s; next_loc := next_loc s;
                     dirs := {[ p ]} ∪ dirs s;
                     log := log s ++ [EvMakedirs p] |}.

(** A fresh list object [[]]. *)
Definition new_list : M loc :=
  fun s => Ret (next_loc s)
               {| heap := <[next_loc s := []]> (heap s);
                  next_loc := S (next_loc s);
                  dirs := dirs s; log := log s |}.

(** The list an object currently holds. *)
Definition contents (s : state) (l : loc) : list Batch :=
  default [] (heap s !! l).

(** [lst.extend(more)]: the object [lst] is changed in place. *)
Definition appended (lst : loc) (more : list Batch) (s : state) : state :=
  {| heap := <[lst := contents s lst ++ more]> (heap s);
     next_loc := next_loc s; dirs := dirs s; log := log s |}.

Definition extend (lst : loc) (more : list Batch) : M unit :=
  fun s => Ret tt (appended lst more s).

(** [requests.get] followed by the reading of the response. *)
Definition request {A} (uri : string) (r : response A) : M A :=
  emit (EvGet uri) >>
  match r with
  | Unreachable e => raise e
  | Answered body => ret body
  end.

(** [d[k]] on a body that may not be the expected document. *)
Definition expect {A} (e : exn) (o : option A) : M A :=
  match o with
  | Some a => ret a
  | None => raise e
  end.

(** [x in lst] for a list of strings. *)
Definition py_in (x : string) (lst : list string) : bool :=
  existsb (String.eqb x) lst.

(** [d.get(k)] on a mapping in document order. *)
Fixpoint dict_get {A} (k : string) (d : list (string * A)) : option A :=
  match d with
  | [] => None
  | (k', v) :: d' => if String.eqb k k' then Some v else dict_get k d'
  end.

(** [t.format('YYYY_MM_DD')]: four-digit year, two-digit month, two-digit
    day; the underscores are not format tokens and are copied. *)
Definition format_YYYY_MM_DD (t : Date) : string :=
  Str.zfill 4 (year t) ++ "_" ++ Str.zfill 2 (month t) ++ "_"
  ++ Str.zfill 2 (day t).

(** [f'landcovernet/{item["id"]}/'] *)
Definition item_root (id : string) : string := "landcovernet/" ++ id ++ "/".

(** [p.map(f, xs)] on the thread pool [p = ThreadPool(20)], for the batches
    of at most 80 tasks that the pool cuts into chunks of one task: every
    task is run, the results come back in the order of [xs], and the call
    raises once all tasks are done if one of them raised.  The tasks are
    run here one after the other in list order, and of several exceptions
    the one of the earliest task is kept. *)
Fixpoint pool_map {A B} (f : A -> M B) (xs : list A) : M (list B) :=
  match xs with
  | [] => ret []
  | x :: xs' => fun s =>
      match f x s with
      | Ret b s1 =>
          match pool_map f xs' s1 with
          | Ret bs s2 => Ret (b :: bs) s2
          | Exn e s2 => Exn e s2
          | OutOfFuel => OutOfFuel
          end
      | Exn e s1 =>
          match pool_map f xs' s1 with
          | Ret _ s2 | Exn _ s2 => Exn e s2
          | OutOfFuel => OutOfFuel
          end
      | OutOfFuel => OutOfFuel
      end
  end.

(** ** The notebook's functions *)

Section Notebook.

Variable W : World.

(** [s3.download_file(bucket, key, filename)] *)
Definition s3_download_file (bucket key filename : string) : M unit :=
  emit (EvS3 bucket key filename) >>
  let* data := expect ClientError (s3_object W bucket key) in
  emit (EvWrite filename [data]).

(** [def download_s3(uri, path)] *)
Definition download_s3 (uri dest : string) : M unit :=
  let parsed := urlparse uri in
  let bucket := netloc parsed in
  let key := Str.drop1 (path parsed) in
  s3_download_file bucket key
    (os_path_join dest (Str.last (Str.split "/" key))).

(** [def download_http(uri, path)]: the file is opened (which is taken to
    succeed), the non-empty chunks are written, the file is closed. *)
Definition download_http (uri dest : string) : M unit :=
  let parsed := urlparse uri in
  let* chunks := request uri (http_chunks W uri) in
  let f := os_path_join dest (Str.last (Str.split "/" (path parsed))) in
  emit (EvWrite f (List.filter (fun chunk => negb (String.eqb chunk ""))
                               chunks)).

(** [def get_download_uri(uri)] *)
Definition get_download_uri (uri : string) : M string :=
  let* headers := request uri (get_location W uri) in
  expect (KeyError "location") headers.

(** [def download(d)] *)
Definition download (d : Task) : M unit :=
  let href := fst d in
  let dest := snd d in
  let* download_uri := get_download_uri href in
  let parsed := urlparse download_uri in
  if py_in (scheme parsed) ["s3"] then download_s3 download_uri dest
  else if py_in (scheme parsed) ["http"; "https"] then
    download_http download_uri dest
  else ret tt.

(** [def get_source_item_assets(args)].  Only the request itself is inside
    the [try]; the reading of the response is after it. *)
Definition get_source_item_assets (args : string * string) : M Batch :=
  let dest := fst args in
  let href := snd args in
  let* r := try_except
              (let* r := request href (get_subitem W href) in ret (Some r))
              (print (CouldNotLoad href) >> ret None) in
  match r with
  | None => ret []
  | Some r =>
      let* doc := expect JSONDecodeError r in
      let* t := expect ParserError (arrow_get W (sub_datetime doc)) in
      let dt := format_YYYY_MM_DD t in
      let asset_path := os_path_join dest dt in
      let* present := os_path_exists asset_path in
      (if negb present then os_makedirs asset_path else ret tt) >>
      ret (List.map (fun '(key, asset) => (asset_href asset, asset_path))
                    (sub_assets doc))
  end.

(** [def download_source_and_labels(item)] *)
Definition download_source_and_labels (item : CatalogItem)
  : M (list Batch) :=
  let labels := dict_get "labels" (item_assets item) in
  let links := item_links item in
  let root := item_root (item_id item) in
  let* present := os_path_exists root in
  (if negb present then os_makedirs root else ret tt) >>
  let source_items :=
    List.map (fun link => (root, link_href link))
      (List.filter (fun link => String.eqb (link_rel link) "source")
                   links) in
  let* results := pool_map get_source_item_assets source_items in
  let* labels := expect TypeError labels in
  ret (results ++ [[(asset_href labels, root)]]).

(** The inner loop of [get_items] over the labels of a feature, with its
    [break]. *)
Fixpoint labels_loop (classes : list string) (labels : list string) : bool :=
  match labels with
  | [] => false
  | label_class :: rest =>
      if py_in label_class classes then true
      else labels_loop classes rest
  end.

(** The value of [matches_class] when the filter has run. *)
Definition matches_class (classes : option (list string))
                         (feature : CatalogItem) : bool :=
  match classes with
  | None => true
  | Some cs => labels_loop cs (default [] (item_labels feature))
  end.

(** How the loop over the features ends: with the [return downloads]
    inside it, or by running out of features, with the counter it then
    holds. *)
Inductive flow :=
| Returned
| Exhausted (items_downloaded : Z).

Definition cap_reached (max_items_downloaded : option Z)
                       (items_downloaded : Z) : bool :=
  match max_items_downloaded with
  | Some m => items_downloaded >=? m
  | None => false
  end.

Fixpoint features_loop (classes : option (list string))
    (max_items_downloaded : option Z) (downloads : loc)
    (features : list CatalogItem) (items_downloaded : Z) : M flow :=
  match features with
  | [] => ret (Exhausted items_downloaded)
  | feature :: rest =>
      if negb (matches_class classes feature) then
        features_loop classes max_items_downloaded downloads rest
                      items_downloaded
      else
        print (GettingAssets (item_id feature)) >>
        let* results := download_source_and_labels feature in
        extend downloads results >>
        let items_downloaded := items_downloaded + 1 in
        if cap_reached max_items_downloaded items_downloaded
        then ret Returned
        else features_loop classes max_items_downloaded downloads rest
                           items_downloaded
  end.

(** The loop over the links of a page; [recur] is the recursive call. *)
Fixpoint links_loop (recur : string -> M loc) (links : list PageLink)
  : M unit :=
  match links with
  | [] => ret tt
  | link :: rest =>
      (if String.eqb (plink_rel link) "next" then
         match plink_href link with
         | Some href => recur href >> ret tt
         | None => ret tt
         end
       else ret tt) >>
      links_loop recur rest
  end.

(** [def get_items(uri, classes, max_items_downloaded, items_downloaded,
    downloads)], with all arguments given.  The recursion of the Python
    function is unbounded; [fuel] bounds its depth. *)
Fixpoint get_items (fuel : nat) (uri : string)
    (classes : option (list string)) (max_items_downloaded : option Z)
    (items_downloaded : Z) (downloads : loc) : M loc :=
  match fuel with
  | O => fun _ => OutOfFuel
  | S fuel' =>
      print (Loading uri) >>
      let* r := request uri (get_page W uri) in
      let* collection := expect JSONDecodeError r in
      let* fl := features_loop classes max_items_downloaded downloads
                   (default [] (page_features collection))
                   items_downloaded in
      match fl with
      | Returned => ret downloads
      | Exhausted items_downloaded =>
          links_loop
            (fun href => get_items fuel' href classes max_items_downloaded
                                   items_downloaded downloads)
            (default [] (page_links collection)) >>
          ret downloads
      end
  end.

(** The [def] statement evaluates the default [downloads=[]] once: the
    function object keeps that one list. *)
Definition def_get_items : M loc := new_list.

(** A call of [get_items] in which [items_downloaded] and [downloads] may
    be left out; [dflt] is the list kept by the function object. *)
Definition call_get_items (dflt : loc) (fuel : nat) (uri : string)
    (classes : option (list string)) (max_items_downloaded : option Z)
    (items_downloaded : option Z) (downloads : option loc) : M loc :=
  get_items fuel uri classes max_items_downloaded
            (default 0 items_downloaded) (default dflt downloads).

(** [for d in tqdm(to_download): p.map(download, d)] *)
Fixpoint run_downloads (to_download : list Batch) : M unit :=
  match to_download with
  | [] => ret tt
  | d :: rest => pool_map download d >> run_downloads rest
  end.

(** A download cell of the notebook:
    [to_download = get_items(uri, classes=..., max_items_downloaded=...,
    downloads=[])] followed by the loop over the batches. *)
Definition download_cell (dflt : loc) (fuel : nat) (uri : string)
    (classes : option (list string)) (max_items_downloaded : option Z)
  : M unit :=
  let* fresh := new_list in
  let* to_download :=
    call_get_items dflt fuel uri classes max_items_downloaded None
                   (Some fresh) in
  fun s => run_downloads (contents s to_download) s.

End Notebook.

(** ** Vocabulary of the properties *)

(** The hrefs of the links of an item that [download_source_and_labels]
    hands to the pool. *)
Definition source_hrefs (item : CatalogItem) : list string :=
  List.map link_href
    (List.filter (fun link => String.eqb (link_rel link) "source")
                 (item_links item)).

(** The sub-item documents that are fetched successfully: a response
    arrives and it is the document. *)
Definition fetched (W : World) (href : string) : option SubItem :=
  match get_subitem W href with
  | Answered (Some doc) => Some doc
  | _ => None
  end.

Definition asset_count (W : World) (href : string) : nat :=
  match fetched W href with
  | Some doc => List.length (sub_assets doc)
  | None => 0%nat
  end.

(** A sub-item reference that [get_source_item_assets] gets through: the
    request raises (and is reported), or the document arrives and its date
    is one [arrow] reads. *)
Definition sub_ok (W : World) (href : string) : bool :=
  match get_subitem W href with
  | Unreachable _ => true
  | Answered (Some doc) => bool_decide (is_Some (arrow_get W (sub_datetime doc)))
  | Answered None => false
  end.

(** An item that [download_source_and_labels] gets through: it has a
    [labels] asset and all its source references are as above. *)
Definition expandable (W : World) (item : CatalogItem) : bool :=
  (bool_decide (is_Some (dict_get "labels" (item_assets item)))
   && List.forallb (sub_ok W) (source_hrefs item))%bool.

(** The tasks of one sub-item, with destination [dest]. *)
Definition subitem_batch (W : World) (dest href : string) : Batch :=
  match fetched W href with
  | Some doc =>
      match arrow_get W (sub_datetime doc) with
      | Some t =>
          List.map (fun '(key, asset) =>
                      (asset_href asset,
                       os_path_join dest (format_YYYY_MM_DD t)))
                   (sub_assets doc)
      | None => []
      end
  | None => []
  end.

(** The hrefs a page offers for continuation: its links with relation
    ["next"] and a href that is not null, in page order. *)
Definition next_hrefs (links : list PageLink) : list string :=
  omap (fun link => if String.eqb (plink_rel link) "next"
                    then plink_href link else None) links.

(** The recursive calls the link loop makes on a list of hrefs. *)
Fixpoint follow (recur : string -> M loc) (hrefs : list string) : M unit :=
  match hrefs with
  | [] => ret tt
  | href :: rest => recur href >> follow recur rest
  end.

(** The pages a log shows as visited (["Loading ..."]) and the items it
    shows as expanded (["Getting Source Imagery Assets for ..."]), both in
    order and with repetitions. *)
Definition loaded (l : list event) : list string :=
  omap (fun e => match e with EvPrint (Loading uri) => Some uri | _ => None end) l.

Definition expanded (l : list event) : list string :=
  omap (fun e => match e with EvPrint (GettingAssets id) => Some id | _ => None end) l.

(** The requests a log shows. *)
Definition requested (l : list event) : list string :=
  omap (fun e => match e with EvGet uri => Some uri | _ => None end) l.

(** Events of the expansion of one item and of the download of one task:
    anything but the two messages of the walk. *)
Definition below_walk (e : event) : bool :=
  match e with
  | EvPrint (Loading _) | EvPrint (GettingAssets _) => false
  | _ => true
  end.

(** A state with another heap. *)
Definition with_heap (h : gmap loc (list Batch)) (n : loc) (s : state)
  : state :=
  {| heap := h; next_loc := n; dirs := dirs s; log := log s |}.

Definition on_state {A} (f : state -> state) (r : result A) : result A :=
  match r with
  | Ret a s => Ret a (f s)
  | Exn e s => Exn e (f s)
  | OutOfFuel => OutOfFuel
  end.

(** The state in which a run ends, if it ends. *)
Definition final {A} (r : result A) : option state :=
  match r with
  | Ret _ s | Exn _ s => Some s
  | OutOfFuel => None
  end.

Definition returns {A} (r : result A) : bool :=
  match r with Ret _ _ => true | _ => false end.

(** A computation that neither reads nor writes the heap. *)
Definition heap_blind {A} (m : M A) : Prop :=
  forall h n s, m (with_heap h n s) = on_state (with_heap h n) (m s).

(** A computation that ends (normally or by an exception), having logged
    only events satisfying [P]. *)
Definition logs_only (P : event -> bool) {A} (m : M A) : Prop :=
  forall s, exists s' es,
    final (m s) = Some s' /\ log s' = log s ++ es /\ forallb P es = true.



(** Every page offers at most one continuation. *)
Definition single_next (W : World) : Prop :=
  forall uri page, get_page W uri = Answered (Some page) ->
    (List.length (next_hrefs (default [] (page_links page))) <= 1)%nat.

(** Two states with the same disk and log (their heaps may differ). *)
Definition same_disk (s1 s2 : state) : Prop :=
  dirs s1 = dirs s2 /\ log s1 = log s2.

(** Two runs, one accumulating in the list [l1] from state [s1] and one in
    the list [l2] from state [s2], that end in [t1] and [t2] having done the
    same things and appended the same batches. *)
Definition grown (l1 l2 : loc) (s1 s2 t1 t2 : state) : Prop :=
  same_disk t1 t2
  /\ exists delta, contents t1 l1 = contents s1 l1 ++ delta
                   /\ contents t2 l2 = contents s2 l2 ++ delta.

Definition sim {A} (R : A -> A -> Prop) (l1 l2 : loc) (s1 s2 : state)
    (r1 r2 : result A) : Prop :=
  match r1, r2 with
  | Ret a1 t1, Ret a2 t2 => R a1 a2 /\ grown l1 l2 s1 s2 t1 t2
  | Exn e1 t1, Exn e2 t2 => e1 = e2 /\ grown l1 l2 s1 s2 t1 t2
  | OutOfFuel, OutOfFuel => True
  | _, _ => False
  end.

(** Messages are the only events that reach the console. *)
Definition printed (l : list event) : list message :=
  omap (fun e => match e with EvPrint m => Some m | _ => None end) l.

Definition silent (e : event) : bool :=
  match e with
  | EvPrint _ => false
  | _ => true
  end.

(** A task on which [download] raises: the redirect request fails or comes
    back without a [Location] header, or the fetch from the resolved place
    fails. *)
Definition download_fails (W : World) (d : Task) : bool :=
  match get_location W (fst d) with
  | Unreachable _ => true
  | Answered None => true
  | Answered (Some uri) =>
      let parsed := urlparse uri in
      if py_in (scheme parsed) ["s3"] then
        match s3_object W (netloc parsed) (Str.drop1 (path parsed)) with
        | Some _ => false
        | None => true
        end
      else if py_in (scheme parsed) ["http"; "https"] then
        match http_chunks W uri with
        | Unreachable _ => true
        | Answered _ => false
        end
      else false
  end.

(** How a run ended, without its state. *)
Definition outcome {A} (r : result A) : option (A + exn) :=
  match r with
  | Ret a _ => Some (inl a)
  | Exn e _ => Some (inr e)
  | OutOfFuel => None
  end.

(** ** A small catalog to run the notebook on *)

Module Demo.

Definition item (id : string) (labels : option (list string))
    (sources : list string) : CatalogItem :=
  {| item_id := id;
     item_labels := labels;
     item_assets := [("labels", {| asset_href := "api/" +:+ id +:+ "/labels" |})];
     item_links :=
       {| link_rel := "self"; link_href := "api/" +:+ id |}
       :: List.map (fun h => {| link_rel := "source"; link_href := h |})
                   sources |}.

Definition water : CatalogItem :=
  item "water" (Some ["Water"; "Woody Vegetation"]) ["s1"; "s2"].
Definition nodata : CatalogItem := item "nodata" (Some ["No Data"]) ["s1"].
Definition plain : CatalogItem := item "plain" None [].
Definition extra : CatalogItem := item "extra" (Some ["Water"]) [].
Definition broken : CatalogItem := item "broken" None ["s1"; "s500"].

Definition page (features : list CatalogItem) (links : list PageLink)
  : response (option CatalogPage) :=
  Answered (Some {| page_features := Some features;
                    page_links := Some links |}).

Definition lnk (rel : string) (href : option string) : PageLink :=
  {| plink_rel := rel; plink_href := href |}.

Definition world : World :=
  {| get_page := fun uri =>
       if String.eqb uri "p1" then
         page [water; nodata] [lnk "self" (Some "p1"); lnk "next" (Some "p2")]
       else if String.eqb uri "p2" then
         page [plain] [lnk "next" None]
       else if String.eqb uri "p3" then
         page [extra] []
       else if String.eqb uri "fork" then
         page [] [lnk "next" (Some "p2"); lnk "next" (Some "p3")]
       else if String.eqb uri "bad" then
         page [broken] []
       else Unreachable ConnectionError;
     get_subitem := fun uri =>
       if String.eqb uri "s1" then
         Answered (Some {| sub_datetime := "2018-01-05T10:20:30Z";
                           sub_assets :=
                             [("B02", {| asset_href := "api/s1/B02" |});
                              ("B03", {| asset_href := "api/s1/B03" |})] |})
       else if String.eqb uri "s500" then Answered None
       else Unreachable ConnectionError;
     get_location := fun uri =>
       if String.eqb uri "api/s1/B02" then
         Answered (Some "s3://bucket/path/to/file.tif")
       else if String.eqb uri "api/s1/B03" then
         Answered (Some "https://host.example/x/B03.tif")
       else if String.eqb uri "api/water/labels" then Answered None
       else Unreachable ConnectionError;
     arrow_get := fun text =>
       if String.eqb text "2018-01-05T10:20:30Z"
       then Some {| year := 2018; month := 1; day := 5 |} else None;
     s3_object := fun bucket key =>
       if (String.eqb bucket "bucket" && String.eqb key "path/to/file.tif")%bool
       then Some "TIFF" else None;
     http_chunks := fun uri => Answered ["II*"; ""; "data"] |}.

Definition doc1 : SubItem :=
  {| sub_datetime := "2018-01-05T10:20:30Z";
     sub_assets := [("B02", {| asset_href := "api/s1/B02" |});
                    ("B03", {| asset_href := "api/s1/B03" |})] |}.


(** The state before the notebook runs, and after the [def] of
    [get_items] has made the default list (object 0). *)
Definition init : state :=
  {| heap := ∅; next_loc := 0%nat; dirs := ∅; log := [] |}.

Definition started : state :=
  {| heap := {[ 0%nat := [] ]}; next_loc := 1%nat; dirs := ∅; log := [] |}.

(** The state after a call [get_items("p2")] made in state [s]. *)
Definition after_call (s : state) : state :=
  default s (final (call_get_items world 0%nat 3 "p2" None None None None s)).

Definition after1 : state := after_call started.
Definition after2 : state := after_call after1.

End Demo.

(** ** Vocabulary of the further properties *)






(** A run that, in the heap, did nothing but append to the list [l]. *)
Definition only_appends (l : loc) (s s' : state) : Prop :=
  next_loc s' = next_loc s
  /\ (forall l', l' <> l -> heap s' !! l' = heap s !! l')
  /\ exists delta, contents s' l = contents s l ++ delta.

(** A run that did nothing but load listing pages. *)
Definition only_loads (s s' : state) : Prop :=
  heap s' = heap s /\ next_loc s' = next_loc s /\ dirs s' = dirs s
  /\ exists uris,
       log s' = log s
                ++ flat_map (fun uri => [EvPrint (Loading uri); EvGet uri])
                            uris.

(** Every run of [m] that ends is related by [R] to its start. *)
Definition keeps (R : state -> state -> Prop) {A} (m : M A) : Prop :=
  forall s s', final (m s) = Some s' -> R s s'.

(** The characters of the urls that [urlparse] takes without raising:
    ASCII (no check of the host on other characters), without brackets (no
    check of an IPv6 host). *)
Definition plain_url_char (c : ascii) : bool :=
  (Nat.ltb (nat_of_ascii c) 128
   && negb (Ascii.eqb c "[") && negb (Ascii.eqb c "]"))%bool.

(** A task whose redirect leads to a place of a scheme that [download]
    does not know. *)
Definition unsupported (W : World) (d : Task) : bool :=
  match get_location W (fst d) with
  | Answered (Some uri) =>
      (Str.forallb plain_url_char uri
       && negb (py_in (scheme (urlparse uri)) ["s3"; "http"; "https"]))%bool
  | _ => false
  end.







(** ** The small catalog, extended *)

Module Demo2.


(** The catalog of [Demo], with a page "q1" whose continuation does not
    arrive and a redirect to a place of another scheme. *)
Definition world : World :=
  {| get_page := fun uri =>
       if String.eqb uri "q1" then
         Demo.page [Demo.water] [Demo.lnk "next" (Some "gone")]
       else get_page Demo.world uri;
     get_subitem := get_subitem Demo.world;
     get_location := fun uri =>
       if String.eqb uri "api/ftp" then
         Answered (Some "ftp://host.example/file.tif")
       else get_location Demo.world uri;
     arrow_get := arrow_get Demo.world;
     s3_object := s3_object Demo.world;
     http_chunks := http_chunks Demo.world |}.

(** The catalog of [Demo] cut down to the pages "p1" and "p2". *)
Definition line : World :=
  {| get_page := fun uri =>
       if String.eqb uri "p1" then get_page Demo.world "p1"
       else if String.eqb uri "p2" then get_page Demo.world "p2"
       else Unreachable ConnectionError;
     get_subitem := get_subitem Demo.world;
     get_location := get_location Demo.world;
     arrow_get := arrow_get Demo.world;
     s3_object := s3_object Demo.world;
     http_chunks := http_chunks Demo.world |}.

(** A state whose default list already holds a batch. *)
Definition dirty : state := appended 0%nat [[("x", "y")]] Demo.started.

(** The state after a walk from "p1" with an empty class list. *)
Definition after_empty : state :=
  default Demo.started
    (final (get_items Demo.world 3 "p1" (Some []) None 0 0%nat
              Demo.started)).

End Demo2.
(** ** The workers of the pool and the local disk

    The pool runs its workers side by side.  What a worker of the
    expansion shares with the others is the local disk:
    [get_source_item_assets] looks for its date directory and makes it in
    two steps, so two workers bound for the same directory can both find it
    missing, and the second [os.makedirs] then raises FileExistsError.  The
    statements about runs that return are made for items and pages on which
    this cannot happen. *)

(** The date directory that [get_source_item_assets] looks for, and makes
    when it is not there, for the reference [href] under the directory
    [root]; none when the request raises or the document or its date is
    not read. *)
Definition date_dir (W : World) (root href : string) : option string :=
  match fetched W href with
  | Some doc =>
      match arrow_get W (sub_datetime doc) with
      | Some t => Some (os_path_join root (format_YYYY_MM_DD t))
      | None => None
      end
  | None => None
  end.

(** The date directories of the source references of an item, in link
    order. *)
Definition date_dirs (W : World) (item : CatalogItem) : list string :=
  omap (date_dir W (item_root (item_id item))) (source_hrefs item).

(** No two source references of the item lead to the same date
    directory. *)
Definition dates_apart (W : World) (item : CatalogItem) : bool :=
  bool_decide (NoDup (date_dirs W item)).


(** ** The workers of the expansion as threads

    [get_source_item_assets] once more, cut at the points where another
    worker of the pool can run: before the request, before the message of
    the [except] branch, before the look for the date directory, before the
    making of it. *)

(** How the call of a worker ends: it returns its tasks, it raises as in
    the sequential reading, or [os.makedirs] finds the directory there and
    raises FileExistsError. *)
Inductive ending :=
| Finished (asset_downloads : Batch)
| Raised (e : exn)
| FileExists (dir : string).

(** A worker at one of its points: ended, or about to make a step.  A
    step changes the state ([act]) and leads to the next point, which can
    depend on what the step found in the state ([next]). *)
Inductive thread :=
| Ended (r : ending)
| Step (act : state -> state) (next : state -> thread).

(** The state after [os.makedirs(p)] has made the directory. *)
Definition made (p : string) (s : state) : state :=
  {| heap := heap s; next_loc := next_loc s;
     dirs := {[ p ]} ∪ dirs s; log := log s ++ [EvMakedirs p] |}.

(** [os.makedirs(asset_path)], then the loop over the assets and the
    [return].  [os.makedirs] raises when the directory is there. *)
Definition makedirs_thread (asset_path : string) (asset_downloads : Batch)
  : thread :=
  Step (fun s => if bool_decide (asset_path ∈ dirs s) then s
                 else made asset_path s)
       (fun s => if bool_decide (asset_path ∈ dirs s)
                 then Ended (FileExists asset_path)
                 else Ended (Finished asset_downloads)).

(** [if not os.path.exists(asset_path): ...] *)
Definition exists_thread (asset_path : string) (asset_downloads : Batch)
  : thread :=
  Step (fun s => s)
       (fun s => if bool_decide (asset_path ∈ dirs s)
                 then Ended (Finished asset_downloads)
                 else makedirs_thread asset_path asset_downloads).

(** The worker after its request: the [except] branch when the request
    raised, otherwise the reading of the response. *)
Definition response_thread (W : World) (dest href : string) : thread :=
  match get_subitem W href with
  | Unreachable _ =>
      Step (logged [EvPrint (CouldNotLoad href)])
           (fun _ => Ended (Finished []))
  | Answered None => Ended (Raised JSONDecodeError)
  | Answered (Some doc) =>
      match arrow_get W (sub_datetime doc) with
      | None => Ended (Raised ParserError)
      | Some t =>
          let asset_path := os_path_join dest (format_YYYY_MM_DD t) in
          exists_thread asset_path
            (List.map (fun '(key, asset) => (asset_href asset, asset_path))
                      (sub_assets doc))
      end
  end.

(** [def get_source_item_assets(args)], as a thread. *)
Definition get_source_item_assets_thread (W : World)
    (args : string * string) : thread :=
  Step (logged [EvGet (snd args)])
       (fun _ => response_thread W (fst args) (snd args)).

(** A worker that runs to its end without another one in between. *)
Fixpoint run_thread (t : thread) (s : state) : ending * state :=
  match t with
  | Ended r => (r, s)
  | Step act next => run_thread (next s) (act s)
  end.

(** The pool at work.  A schedule names, turn by turn, the worker that
    makes a step (a worker that has ended passes its turn, and so does a
    number that names no worker); when the schedule is used up, the workers
    still under way run to their ends one after the other. *)
Definition turn (i : nat) (ts : list thread) (s : state)
  : list thread * state :=
  match ts !! i with
  | Some (Step act next) => (<[i := next s]> ts, act s)
  | _ => (ts, s)
  end.

Fixpoint turns (schedule : list nat) (ts : list thread) (s : state)
  : list thread * state :=
  match schedule with
  | [] => (ts, s)
  | i :: rest => let '(ts', s') := turn i ts s in turns rest ts' s'
  end.

Fixpoint run_threads (ts : list thread) (s : state)
  : list ending * state :=
  match ts with
  | [] => ([], s)
  | t :: rest =>
      let '(r, s1) := run_thread t s in
      let '(rs, s2) := run_threads rest s1 in
      (r :: rs, s2)
  end.

Definition pool_threads (schedule : list nat) (ts : list thread)
    (s : state) : list ending * state :=
  let '(ts', s') := turns schedule ts s in run_threads ts' s'.

(** The workers that the expansion of an item hands to the pool. *)
Definition source_threads (W : World) (item : CatalogItem) : list thread :=
  List.map (fun href => get_source_item_assets_thread W
                          (item_root (item_id item), href))
           (source_hrefs item).




(** ** Calendar dates and their text *)




(** ** Files on the local disk *)





(** ** The small catalog, once more *)

Module Demo3.

(** An item that links the same sub-item twice: both references lead to
    one date directory. *)
Definition twin : CatalogItem := Demo.item "twin" None ["s1"; "s1"].


End Demo3.


(** * Properties *)

(** ** Strings and paths *)


















(** ** The class filter *)

Lemma py_in_elem_of (x : string) (lst : list string) :
  py_in x lst = true <-> x ∈ lst.
Proof.
  unfold py_in. rewrite existsb_exists, list_elem_of_In. split.
  - intros (y & Hy & E). apply String.eqb_eq in E. now subst.
  - intros H. exists x. split; [exact H | apply String.eqb_refl].
Qed.

Lemma labels_loop_true (cs labels : list string) :
  labels_loop cs labels = true <-> exists l, l ∈ labels /\ l ∈ cs.
Proof.
  induction labels as [|x rest IH]; simpl.
  - split; [discriminate | intros (l & H & _); inversion H].
  - destruct (py_in x cs) eqn:E.
    + split; [intros _ | reflexivity].
      exists x. split; [left | now apply py_in_elem_of].
    + rewrite IH. split.
      * intros (l & H1 & H2). exists l. split; [now right | exact H2].
      * intros (l & H1 & H2). exists l. split; [| exact H2].
        inversion H1; subst; [| assumption].
        apply py_in_elem_of in H2. congruence.
Qed.

Lemma inter_nonempty (labels cs : list string) :
  (list_to_set labels ∩ list_to_set cs : gset string) ≠ ∅
  <-> exists l, l ∈ labels /\ l ∈ cs.
Proof.
  split.
  - intros H. apply set_choose_L in H as [l Hl]. exists l. set_solver.
  - intros (l & H1 & H2). set_solver.
Qed.

(** C1. The filter of the walk accepts a feature exactly when no class
    list is given, or when the labels of the feature (none when the key is
    absent) and the class list have a common element.  A feature without
    labels is rejected by every class list, and one common label is enough
    for acceptance. *)
Theorem matches_class_iff_common_label
    (classes : option (list string)) (feature : CatalogItem) :
  (matches_class classes feature = true <->
     classes = None
     \/ exists cs, classes = Some cs
        /\ (list_to_set (default [] (item_labels feature)) ∩ list_to_set cs
            : gset string) ≠ ∅)
  /\ (forall cs, default [] (item_labels feature) = [] ->
                 matches_class (Some cs) feature = false)
  /\ (forall cs l, l ∈ default [] (item_labels feature) -> l ∈ cs ->
                   matches_class (Some cs) feature = true).
Proof.
  split; [| split].
  - destruct classes as [cs|]; simpl.
    + rewrite labels_loop_true, <- inter_nonempty. split.
      * intros H. right. exists cs. now split.
      * intros [H | (cs' & E & H)]; [discriminate | now inversion E; subst].
    + split; [now left | reflexivity].
  - intros cs E. simpl. now rewrite E.
  - intros cs l H1 H2. simpl. apply labels_loop_true. now exists l.
Qed.

(** ** Running the monad *)

Lemma pool_map_ret {A B} (f : A -> M B) (g : A -> B) (xs : list A) :
  (forall x s, x ∈ xs -> exists s', f x s = Ret (g x) s') ->
  forall s, exists s', pool_map f xs s = Ret (List.map g xs) s'.
Proof.
  induction xs as [|x xs IH]; intros Hf s; simpl.
  - now exists s.
  - destruct (Hf x s) as [s1 E1]; [left |]. rewrite E1.
    destruct (IH (fun y s Hy => Hf y s (list_elem_of_further _ _ _ Hy)) s1)
      as [s2 E2].
    rewrite E2. now exists s2.
Qed.

(** ** The downloader *)

Section Downloader.

Variable W : World.








End Downloader.

(** ** Computations that leave the heap alone *)

Section Blind.

Context {A B : Type}.

Lemma heap_blind_ret (a : A) : heap_blind (ret a).
Proof. intros h n s. reflexivity. Qed.

Lemma heap_blind_raise (e : exn) : heap_blind (@raise A e).
Proof. intros h n s. reflexivity. Qed.

Lemma heap_blind_bind (m : M A) (k : A -> M B) :
  heap_blind m -> (forall a, heap_blind (k a)) -> heap_blind (bind m k).
Proof.
  intros Hm Hk h n s. unfold bind. rewrite Hm.
  destruct (m s) as [a s'| e s' |]; simpl; [apply Hk | reflexivity ..].
Qed.

Lemma heap_blind_try (m h : M A) :
  heap_blind m -> heap_blind h -> heap_blind (try_except m h).
Proof.
  intros Hm Hh hp n s. unfold try_except. rewrite Hm.
  destruct (m s) as [a s'| e s' |]; simpl; [reflexivity | apply Hh | reflexivity].
Qed.

Lemma heap_blind_pool_map (f : A -> M B) (xs : list A) :
  (forall x, heap_blind (f x)) -> heap_blind (pool_map f xs).
Proof.
  intros Hf. induction xs as [|x xs IH]; intros h n s; simpl; [reflexivity |].
  rewrite Hf. destruct (f x s) as [b s1| e s1 |]; simpl; [| | reflexivity].
  - rewrite IH. now destruct (pool_map f xs s1).
  - rewrite IH. now destruct (pool_map f xs s1).
Qed.

Lemma heap_blind_expect (e : exn) (o : option A) : heap_blind (expect e o).
Proof. destruct o; intros h n s; reflexivity. Qed.

Lemma heap_blind_request (uri : string) (r : response A) :
  heap_blind (request uri r).
Proof. destruct r; intros h n s; reflexivity. Qed.

Lemma heap_blind_if (c : bool) (m1 m2 : M A) :
  heap_blind m1 -> heap_blind m2 -> heap_blind (if c then m1 else m2).
Proof. now destruct c. Qed.

End Blind.

Lemma heap_blind_emit (e : event) : heap_blind (emit e).
Proof. intros h n s. reflexivity. Qed.

Lemma heap_blind_exists (p : string) : heap_blind (os_path_exists p).
Proof. intros h n s. reflexivity. Qed.

Lemma heap_blind_makedirs (p : string) : heap_blind (os_makedirs p).
Proof. intros h n s. reflexivity. Qed.

Ltac blind :=
  repeat first
    [ apply heap_blind_request
    | apply heap_blind_emit
    | apply heap_blind_exists
    | apply heap_blind_makedirs
    | apply heap_blind_expect
    | apply heap_blind_ret
    | apply heap_blind_raise
    | apply heap_blind_try
    | apply heap_blind_pool_map; intros ?
    | apply heap_blind_if
    | apply heap_blind_bind; [| intros ? ]
    | match goal with
      | |- heap_blind (match ?x with _ => _ end) => destruct x
      end ].

Lemma heap_blind_get_source_item_assets (W : World) (args : string * string) :
  heap_blind (get_source_item_assets W args).
Proof.
  unfold get_source_item_assets, print. blind.
Qed.

Lemma heap_blind_expand (W : World) (item : CatalogItem) :
  heap_blind (download_source_and_labels W item).
Proof.
  unfold download_source_and_labels. blind.
Qed.

Lemma heap_blind_download (W : World) (d : Task) : heap_blind (download W d).
Proof.
  unfold download, get_download_uri, download_s3, download_http,
    s3_download_file.
  blind.
Qed.

(** A heap-blind computation returns the heap it was given. *)
Lemma heap_blind_heap {A} (m : M A) (s s' : state) :
  heap_blind m -> final (m s) = Some s' ->
  heap s' = heap s /\ next_loc s' = next_loc s.
Proof.
  intros Hm Hf. specialize (Hm (heap s) (next_loc s) s).
  assert (E : with_heap (heap s) (next_loc s) s = s) by now destruct s.
  rewrite E in Hm. rewrite Hm in Hf.
  destruct (m s) as [a t| e t |]; simpl in Hf; inversion Hf; now split.
Qed.

(** ** Computations that end and log little *)

Section Logs.

Context {A B : Type}.
Variable P : event -> bool.

Lemma logs_only_ret (a : A) : logs_only P (ret a).
Proof. intros s. exists s, []. now rewrite app_nil_r. Qed.

Lemma logs_only_raise (e : exn) : logs_only P (@raise A e).
Proof. intros s. exists s, []. now rewrite app_nil_r. Qed.

Lemma logs_only_bind (m : M A) (k : A -> M B) :
  logs_only P m -> (forall a, logs_only P (k a)) -> logs_only P (bind m k).
Proof.
  intros Hm Hk s. unfold bind.
  destruct (Hm s) as (s1 & es1 & F1 & L1 & P1).
  destruct (m s) as [a t| e t |]; simpl in F1; inversion F1; subst.
  - destruct (Hk a s1) as (s2 & es2 & F2 & L2 & P2).
    exists s2, (es1 ++ es2). split; [exact F2 |].
    rewrite L2, L1, <- app_assoc, forallb_app, P1, P2. now split.
  - now exists s1, es1.
Qed.

Lemma logs_only_try (m h : M A) :
  logs_only P m -> logs_only P h -> logs_only P (try_except m h).
Proof.
  intros Hm Hh s. unfold try_except.
  destruct (Hm s) as (s1 & es1 & F1 & L1 & P1).
  destruct (m s) as [a t| e t |]; simpl in F1; inversion F1; subst.
  - now exists s1, es1.
  - destruct (Hh s1) as (s2 & es2 & F2 & L2 & P2).
    exists s2, (es1 ++ es2). split; [exact F2 |].
    rewrite L2, L1, <- app_assoc, forallb_app, P1, P2. now split.
Qed.

Lemma logs_only_pool_map (f : A -> M B) (xs : list A) :
  (forall x, logs_only P (f x)) -> logs_only P (pool_map f xs).
Proof.
  intros Hf. induction xs as [|x xs IH]; intros s; simpl.
  - exists s, []. now rewrite app_nil_r.
  - destruct (Hf x s) as (s1 & es1 & F1 & L1 & P1).
    destruct (IH s1) as (s2 & es2 & F2 & L2 & P2).
    exists s2, (es1 ++ es2).
    rewrite L2, L1, <- app_assoc, forallb_app, P1, P2.
    destruct (f x s) as [b t| e t |]; simpl in F1; inversion F1; subst;
      destruct (pool_map f xs s1) as [bs u| e' u |]; simpl in F2;
      inversion F2; subst; now repeat split.
Qed.

Lemma logs_only_expect (e : exn) (o : option A) : logs_only P (expect e o).
Proof. destruct o; [apply logs_only_ret | apply logs_only_raise]. Qed.

Lemma logs_only_if (c : bool) (m1 m2 : M A) :
  logs_only P m1 -> logs_only P m2 -> logs_only P (if c then m1 else m2).
Proof. now destruct c. Qed.

End Logs.

Lemma logs_only_emit (P : event -> bool) (e : event) :
  P e = true -> logs_only P (emit e).
Proof.
  intros He s. eexists _, [e]. split; [reflexivity |]. simpl.
  now rewrite He.
Qed.

Lemma logs_only_request {A} (P : event -> bool) (uri : string)
    (r : response A) :
  P (EvGet uri) = true -> logs_only P (request uri r).
Proof.
  intros He. unfold request. apply logs_only_bind.
  - now apply logs_only_emit.
  - intros _. destruct r; [apply logs_only_raise | apply logs_only_ret].
Qed.

Lemma logs_only_exists (P : event -> bool) (p : string) :
  logs_only P (os_path_exists p).
Proof. intros s. exists s, []. now rewrite app_nil_r. Qed.

Lemma logs_only_makedirs (P : event -> bool) (p : string) :
  P (EvMakedirs p) = true -> logs_only P (os_makedirs p).
Proof.
  intros He s. eexists _, [EvMakedirs p]. split; [reflexivity |]. simpl.
  now rewrite He.
Qed.

Ltac quiet :=
  repeat first
    [ apply logs_only_request; reflexivity
    | apply logs_only_emit; reflexivity
    | apply logs_only_exists
    | apply logs_only_makedirs; reflexivity
    | apply logs_only_expect
    | apply logs_only_ret
    | apply logs_only_raise
    | apply logs_only_try
    | apply logs_only_pool_map; intros ?
    | apply logs_only_if
    | apply logs_only_bind; [| intros ? ]
    | match goal with
      | |- logs_only _ (match ?x with _ => _ end) => destruct x
      end ].


Lemma quiet_expand (W : World) (item : CatalogItem) :
  logs_only below_walk (download_source_and_labels W item).
Proof.
  unfold download_source_and_labels. quiet.
Qed.

Lemma quiet_download (W : World) (d : Task) :
  logs_only below_walk (download W d).
Proof.
  unfold download, get_download_uri, download_s3, download_http,
    s3_download_file.
  quiet.
Qed.

Lemma below_walk_loaded (es : list event) :
  forallb below_walk es = true -> loaded es = [] /\ expanded es = [].
Proof.
  induction es as [|e es IH]; [now split |]. simpl.
  intros H. apply andb_prop in H as [He Hes]. destruct (IH Hes) as [I1 I2].
  unfold loaded, expanded in *. simpl. rewrite I1, I2.
  destruct e as [[]| | | |]; simpl in *; try discriminate; now split.
Qed.

(** ** Expansion of an item *)

Section Expansion.

Variable W : World.

(** A request that raises is reported and yields no task. *)
Lemma get_source_item_assets_unreachable (dest href : string) (e : exn)
    (s : state) :
  get_subitem W href = Unreachable e ->
  get_source_item_assets W (dest, href) s
  = Ret [] (logged [EvGet href; EvPrint (CouldNotLoad href)] s).
Proof.
  intros H. unfold get_source_item_assets, try_except, bind, request, print,
    emit, raise, ret, logged. simpl. rewrite H. simpl.
  now rewrite <- app_assoc.
Qed.


Lemma get_source_item_assets_ok (dest href : string) (s : state) :
  sub_ok W href = true ->
  exists s', get_source_item_assets W (dest, href) s
             = Ret (subitem_batch W dest href) s'.
Proof.
  unfold sub_ok, subitem_batch, fetched. intros H.
  destruct (get_subitem W href) as [e|[doc|]] eqn:E; [| | discriminate].
  - rewrite (get_source_item_assets_unreachable _ _ e) by exact E. eauto.
  - apply bool_decide_eq_true in H as [t Ht]. rewrite Ht.
    unfold get_source_item_assets, try_except, bind, request, print,
      emit, raise, ret, expect, os_path_exists. simpl. rewrite E. simpl.
    rewrite Ht. simpl.
    destruct (negb _); simpl; eauto.
Qed.



(** What the expansion of an expandable item returns. *)
Lemma expansion_returns (item : CatalogItem) (s : state) :
  expandable W item = true ->
  exists labels s',
    dict_get "labels" (item_assets item) = Some labels
    /\ download_source_and_labels W item s
       = Ret (List.map (subitem_batch W (item_root (item_id item)))
                       (source_hrefs item)
              ++ [[(asset_href labels, item_root (item_id item))]]) s'.
Proof.
  unfold expandable. intros H. apply andb_prop in H as [Hl Hs].
  apply bool_decide_eq_true in Hl as [labels Hl]. exists labels.
  unfold download_source_and_labels. rewrite Hl.
  unfold bind at 1. unfold os_path_exists at 1.
  set (root := item_root (item_id item)).
  set (pre := if negb (bool_decide (root ∈ dirs s)) then os_makedirs root
              else ret tt).
  unfold bind at 1.
  assert (Hpre : exists s1, pre s = Ret tt s1).
  { unfold pre. destruct (negb _); simpl; eauto. }
  destruct Hpre as [s1 ->].
  unfold bind at 1.
  destruct (pool_map_ret (get_source_item_assets W)
              (fun a => subitem_batch W (fst a) (snd a))
              (List.map (fun link => (root, link_href link))
                 (List.filter (fun link => String.eqb (link_rel link) "source")
                    (item_links item)))) with (s := s1) as [s2 E2].
  { intros [d h] s0 Hin. simpl.
    apply get_source_item_assets_ok.
    apply list_elem_of_fmap in Hin as (link & Heq & Hlink).
    inversion Heq; subst.
    rewrite forallb_forall in Hs. apply Hs. unfold source_hrefs.
    apply in_map. now apply list_elem_of_In. }
  rewrite E2. simpl. unfold ret. exists s2. split; [reflexivity |].
  do 2 f_equal. unfold source_hrefs. rewrite !map_map. reflexivity.
Qed.

End Expansion.

(** ** The walk *)

Lemma loaded_app (a b : list event) : loaded (a ++ b) = loaded a ++ loaded b.
Proof. apply omap_app. Qed.

Lemma expanded_app (a b : list event) :
  expanded (a ++ b) = expanded a ++ expanded b.
Proof. apply omap_app. Qed.

Section Walk.

Variable W : World.
Variable classes : option (list string).
Variable max_items_downloaded : option Z.
Variable downloads : loc.


Lemma features_loop_skip (feature : CatalogItem) (rest : list CatalogItem)
    (n : Z) (s : state) :
  matches_class classes feature = false ->
  features_loop W classes max_items_downloaded downloads
    (feature :: rest) n s
  = features_loop W classes max_items_downloaded downloads rest n s.
Proof. intros H. simpl. now rewrite H. Qed.

Lemma features_loop_hit (feature : CatalogItem) (rest : list CatalogItem)
    (n : Z) (s : state) :
  matches_class classes feature = true ->
  features_loop W classes max_items_downloaded downloads (feature :: rest) n s
  = match download_source_and_labels W feature
            (logged [EvPrint (GettingAssets (item_id feature))] s) with
    | Ret results s1 =>
        if cap_reached max_items_downloaded (n + 1)
        then Ret Returned (appended downloads results s1)
        else features_loop W classes max_items_downloaded downloads rest
               (n + 1) (appended downloads results s1)
    | Exn e s1 => Exn e s1
    | OutOfFuel => OutOfFuel
    end.
Proof.
  intros H. simpl. rewrite H. simpl. unfold bind, print, emit, extend.
  destruct (download_source_and_labels W feature _) as [r s1|e s1|];
    try reflexivity.
  now destruct (cap_reached max_items_downloaded (n + 1)).
Qed.

(** The link loop makes the recursive call on every continuation the page
    offers, in page order. *)
Lemma links_loop_follow (recur : string -> M loc) (links : list PageLink)
    (s : state) :
  links_loop recur links s = follow recur (next_hrefs links) s.
Proof.
  revert s. induction links as [|link links IH]; intros s; [reflexivity |].
  simpl. unfold next_hrefs. simpl. fold (next_hrefs links).
  destruct (String.eqb (plink_rel link) "next").
  - destruct (plink_href link) as [href|]; simpl.
    + unfold bind. destruct (recur href s); simpl; auto.
    + unfold bind. simpl. apply IH.
  - unfold bind. simpl. apply IH.
Qed.

(** One call of [get_items] on a page that arrives. *)
Lemma get_items_page (fuel : nat) (uri : string) (page : CatalogPage)
    (n : Z) (s : state) :
  get_page W uri = Answered (Some page) ->
  get_items W (S fuel) uri classes max_items_downloaded n downloads s
  = match features_loop W classes max_items_downloaded downloads
            (default [] (page_features page)) n
            (logged [EvPrint (Loading uri); EvGet uri] s) with
    | Ret Returned s1 => Ret downloads s1
    | Ret (Exhausted n') s1 =>
        match follow (fun href => get_items W fuel href classes
                                    max_items_downloaded n' downloads)
                (next_hrefs (default [] (page_links page))) s1 with
        | Ret _ s2 => Ret downloads s2
        | Exn e s2 => Exn e s2
        | OutOfFuel => OutOfFuel
        end
    | Exn e s1 => Exn e s1
    | OutOfFuel => OutOfFuel
    end.
Proof.
  intros H. simpl. unfold bind at 1. unfold print, emit.
  unfold bind at 1. unfold request, bind at 1, emit. rewrite H.
  unfold ret at 1. unfold bind at 1. unfold expect, ret at 1.
  unfold bind at 1.
  assert (E : logged [EvGet uri] (logged [EvPrint (Loading uri)] s)
              = logged [EvPrint (Loading uri); EvGet uri] s).
  { unfold logged. simpl. now rewrite <- app_assoc. }
  rewrite E.
  destruct (features_loop W classes max_items_downloaded downloads _ n _)
    as [[|n'] s1|e s1|]; try reflexivity.
  unfold bind. rewrite links_loop_follow.
  now destruct (follow _ _ s1).
Qed.

(** A page that does not arrive, or is not a listing, ends the walk with
    an exception. *)
Lemma get_items_no_page (fuel : nat) (uri : string) (n : Z) (s : state) :
  (forall page, get_page W uri <> Answered (Some page)) ->
  exists e, get_items W (S fuel) uri classes max_items_downloaded n downloads s
            = Exn e (logged [EvPrint (Loading uri); EvGet uri] s).
Proof.
  intros H. simpl. unfold bind, print, emit, request, expect.
  assert (E : logged [EvGet uri] (logged [EvPrint (Loading uri)] s)
              = logged [EvPrint (Loading uri); EvGet uri] s).
  { unfold logged. simpl. now rewrite <- app_assoc. }
  destruct (get_page W uri) as [e|[page|]] eqn:Hp; simpl; rewrite ?E; eauto.
  now destruct (H page).
Qed.

(** The loop over the features ends, visits no page, and has expanded the
    items its log shows.  The counter is checked only after an expansion:
    while the loop goes on, every expansion but the last left the counter
    under the cap. *)
Lemma features_loop_log (features : list CatalogItem) (n : Z) (s : state) :
  exists s' es,
    final (features_loop W classes max_items_downloaded downloads
             features n s) = Some s'
    /\ log s' = log s ++ es
    /\ loaded es = []
    /\ (2 <= Z.of_nat (List.length (expanded es)) ->
        cap_reached max_items_downloaded
          (n + Z.of_nat (List.length (expanded es)) - 1) = false)
    /\ match features_loop W classes max_items_downloaded downloads
               features n s with
       | Ret Returned _ =>
           1 <= Z.of_nat (List.length (expanded es))
           /\ cap_reached max_items_downloaded
                (n + Z.of_nat (List.length (expanded es))) = true
       | Ret (Exhausted n') _ =>
           n' = n + Z.of_nat (List.length (expanded es))
           /\ (1 <= Z.of_nat (List.length (expanded es)) ->
               cap_reached max_items_downloaded n' = false)
       | _ => True
       end.
Proof.
  revert n s. induction features as [|feature rest IH]; intros n s.
  - exists s, []. simpl. rewrite app_nil_r.
    repeat split; try lia.
  - destruct (matches_class classes feature) eqn:Hm.
    2:{ rewrite features_loop_skip by exact Hm. apply IH. }
    rewrite features_loop_hit by exact Hm.
    destruct (quiet_expand W feature
                (logged [EvPrint (GettingAssets (item_id feature))] s))
      as (s1 & es1 & F1 & L1 & P1).
    apply below_walk_loaded in P1 as [Q1 Q2].
    destruct (download_source_and_labels W feature _) as [results t|e t|];
      simpl in F1; inversion F1; subst t; clear F1.
    + destruct (cap_reached max_items_downloaded (n + 1)) eqn:Hcap.
      * exists (appended downloads results s1),
          (EvPrint (GettingAssets (item_id feature)) :: es1).
        simpl. rewrite L1. simpl. rewrite <- app_assoc. simpl.
        unfold loaded, expanded in *. simpl. rewrite Q1, Q2. simpl.
        repeat split; try lia. exact Hcap.
      * destruct (IH (n + 1) (appended downloads results s1))
          as (s2 & es2 & F2 & L2 & Q3 & C2 & R2).
        exists s2, (EvPrint (GettingAssets (item_id feature)) :: es1 ++ es2).
        split; [exact F2 |]. split.
        { rewrite L2. simpl. rewrite L1. simpl.
          now rewrite <- !app_assoc. }
        split.
        { change (loaded (es1 ++ es2) = []). now rewrite loaded_app, Q1, Q3. }
        assert (E : expanded (EvPrint (GettingAssets (item_id feature))
                              :: es1 ++ es2)
                    = item_id feature :: expanded es2).
        { change (item_id feature :: expanded (es1 ++ es2)
                  = item_id feature :: expanded es2).
          now rewrite expanded_app, Q2. }
        rewrite E. simpl List.length.
        remember (List.length (expanded es2)) as m2 eqn:Em2. clear E Em2.
        rewrite Nat2Z.inj_succ. split.
        { intros Hge. destruct (Z.eq_dec (Z.of_nat m2) 1) as [E1|E1].
          - replace (n + Z.succ (Z.of_nat m2) - 1) with (n + 1) by lia.
            exact Hcap.
          - replace (n + Z.succ (Z.of_nat m2) - 1)
              with (n + 1 + Z.of_nat m2 - 1) by lia.
            apply C2. lia. }
        destruct (features_loop W classes max_items_downloaded downloads
                    rest (n + 1) _) as [[|n'] u|e u|];
          try exact I.
        { destruct R2 as [R2 R3]. split; [lia |].
          now replace (n + Z.succ (Z.of_nat m2))
            with (n + 1 + Z.of_nat m2) by lia. }
        { destruct R2 as [R2 R3]. split; [lia |].
          intros _. destruct (Z.eq_dec (Z.of_nat m2) 0) as [E0|E0].
          - replace n' with (n + 1) by lia. exact Hcap.
          - apply R3. lia. }
    + exists s1, (EvPrint (GettingAssets (item_id feature)) :: es1).
      simpl. rewrite L1. simpl. rewrite <- app_assoc. simpl.
      unfold loaded, expanded in *. simpl. rewrite Q1, Q2. simpl.
      repeat split; lia.
Qed.



End Walk.

(** ** Chains of pages *)

Section Chains.

Variable W : World.





(** ** The cap on items *)

Lemma cap_reached_false (k x : Z) : cap_reached (Some k) x = false -> x < k.
Proof. unfold cap_reached. intros H. destruct (Z.geb_spec x k); [discriminate | lia]. Qed.

(** When every page offers at most one continuation, a walk with cap [k]
    that starts with the counter at [n] expands at most [k - n] items, and
    at most one when [k - n] is not positive: the counter is compared with
    the cap only after an expansion. *)
Lemma cap_bound (classes : option (list string)) (k : Z) (downloads : loc) :
  single_next W ->
  forall (fuel : nat) (uri : string) (n : Z) (s s' : state),
    final (get_items W fuel uri classes (Some k) n downloads s) = Some s' ->
    exists es, log s' = log s ++ es
               /\ Z.of_nat (List.length (expanded es)) <= Z.max 1 (k - n).
Proof.
  intros Hsingle. induction fuel as [|fuel IH]; intros uri n s s' F;
    [discriminate |].
  destruct (get_page W uri) as [e|[page|]] eqn:Hp.
  1,3: destruct (get_items_no_page W classes (Some k) downloads fuel uri n s)
         as [e' E]; [intros p; congruence |];
       rewrite E in F; inversion F; subst;
       exists [EvPrint (Loading uri); EvGet uri]; split; [reflexivity |];
       simpl; lia.
  rewrite (get_items_page W classes (Some k) downloads fuel uri page)
    in F by exact Hp.
  destruct (features_loop_log W classes (Some k) downloads
              (default [] (page_features page)) n
              (logged [EvPrint (Loading uri); EvGet uri] s))
    as (s1 & es & F1 & L1 & Q1 & C1 & R1).
  assert (Hlog : log s1 = log s ++ [EvPrint (Loading uri); EvGet uri] ++ es).
  { rewrite L1. simpl. now rewrite <- app_assoc. }
  assert (Hx : forall more,
             Z.of_nat (List.length (expanded
               ([EvPrint (Loading uri); EvGet uri] ++ es ++ more)))
             = Z.of_nat (List.length (expanded es))
               + Z.of_nat (List.length (expanded more))).
  { intros more. rewrite !expanded_app, !length_app, !Nat2Z.inj_add.
    simpl. lia. }
  assert (Hbound : Z.of_nat (List.length (expanded es)) <= Z.max 1 (k - n)).
  { destruct (Z_lt_le_dec (Z.of_nat (List.length (expanded es))) 2) as [|H2];
      [lia |].
    apply C1, cap_reached_false in H2. lia. }
  remember (Z.of_nat (List.length (expanded es))) as m eqn:Em.
  destruct (features_loop W classes (Some k) downloads _ n _)
    as [[|n'] t|e t|]; simpl in F1; inversion F1; subst t.
  - inversion F; subst s'.
    exists ([EvPrint (Loading uri); EvGet uri] ++ es ++ []).
    rewrite Hx, app_nil_r. split; [exact Hlog | simpl; lia].
  - destruct R1 as [-> R1].
    specialize (Hsingle uri page Hp).
    destruct (next_hrefs (default [] (page_links page))) as [|u [|u2 us]];
      [| | simpl in Hsingle; lia].
    + simpl in F. inversion F; subst s'.
      exists ([EvPrint (Loading uri); EvGet uri] ++ es ++ []).
      rewrite Hx, app_nil_r. split; [exact Hlog | simpl; lia].
    + simpl in F. unfold bind in F.
      destruct (get_items W fuel u classes (Some k) (n + m) downloads s1)
        as [r t|e t|] eqn:E2; simpl in F; inversion F; subst s'.
      * destruct (IH u (n + m) s1 t) as (es2 & L2 & B2);
          [now rewrite E2 |].
        exists ([EvPrint (Loading uri); EvGet uri] ++ es ++ es2).
        rewrite Hx. split.
        { rewrite L2, Hlog. now rewrite <- !app_assoc. }
        destruct (Z_lt_le_dec m 1) as [|H1]; [lia |].
        apply R1, cap_reached_false in H1. lia.
      * destruct (IH u (n + m) s1 t) as (es2 & L2 & B2);
          [now rewrite E2 |].
        exists ([EvPrint (Loading uri); EvGet uri] ++ es ++ es2).
        rewrite Hx. split.
        { rewrite L2, Hlog. now rewrite <- !app_assoc. }
        destruct (Z_lt_le_dec m 1) as [|H1]; [lia |].
        apply R1, cap_reached_false in H1. lia.
  - inversion F; subst s'.
    exists ([EvPrint (Loading uri); EvGet uri] ++ es ++ []).
    rewrite Hx, app_nil_r. split; [exact Hlog | simpl; lia].
Qed.

(** The first item that passes the filter is expanded whatever the cap:
    with a cap already met before it (for instance a cap of 0), the loop
    expands that item and returns only then. *)
Lemma expansion_precedes_cap_check (classes : option (list string)) (k : Z)
    (downloads : loc) (feature : CatalogItem) (rest : list CatalogItem)
    (n : Z) (s : state) :
  matches_class classes feature = true ->
  expandable W feature = true ->
  k <= n + 1 ->
  exists s' es,
    features_loop W classes (Some k) downloads (feature :: rest) n s
    = Ret Returned s'
    /\ log s' = log s ++ es
    /\ expanded es = [item_id feature].
Proof.
  intros Hm He Hk. rewrite features_loop_hit by exact Hm.
  destruct (expansion_returns W feature
              (logged [EvPrint (GettingAssets (item_id feature))] s) He)
    as (labels & s1 & _ & E).
  destruct (quiet_expand W feature
              (logged [EvPrint (GettingAssets (item_id feature))] s))
    as (s1' & es1 & F1 & L1 & P1).
  rewrite E in F1 |- *. simpl in F1. inversion F1; subst s1'.
  apply below_walk_loaded in P1 as [_ Q].
  assert (Hcap : cap_reached (Some k) (n + 1) = true).
  { unfold cap_reached. destruct (Z.geb_spec (n + 1) k); [reflexivity | lia]. }
  rewrite Hcap.
  exists (appended downloads
            (List.map (subitem_batch W (item_root (item_id feature)))
                      (source_hrefs feature)
             ++ [[(asset_href labels, item_root (item_id feature))]]) s1),
    (EvPrint (GettingAssets (item_id feature)) :: es1).
  split; [reflexivity |]. split.
  - simpl. rewrite L1. simpl. now rewrite <- app_assoc.
  - change (item_id feature :: expanded es1 = [item_id feature]).
    now rewrite Q.
Qed.

End Chains.

(** ** The accumulator *)

Section Accumulator.

Variable W : World.
Variable classes : option (list string).
Variable max_items_downloaded : option Z.

Lemma grown_refl (l1 l2 : loc) (s1 s2 : state) :
  same_disk s1 s2 -> grown l1 l2 s1 s2 s1 s2.
Proof. intros H. split; [exact H |]. exists []. now rewrite !app_nil_r. Qed.

Lemma grown_trans (l1 l2 : loc) (s1 s2 t1 t2 u1 u2 : state) :
  grown l1 l2 s1 s2 t1 t2 -> grown l1 l2 t1 t2 u1 u2 ->
  grown l1 l2 s1 s2 u1 u2.
Proof.
  intros [_ (d & A1 & A2)] [D (d' & B1 & B2)]. split; [exact D |].
  exists (d ++ d'). rewrite B1, B2, A1, A2. now rewrite <- !app_assoc.
Qed.

Lemma sim_weaken {A} (R R' : A -> A -> Prop) (l1 l2 : loc) (s1 s2 : state)
    (r1 r2 : result A) :
  (forall a b, R a b -> R' a b) ->
  sim R l1 l2 s1 s2 r1 r2 -> sim R' l1 l2 s1 s2 r1 r2.
Proof.
  intros HR. destruct r1, r2; simpl; try tauto.
  intros [H G]. split; [now apply HR | exact G].
Qed.

Lemma contents_appended (l : loc) (more : list Batch) (s : state) :
  contents (appended l more s) l = contents s l ++ more.
Proof. unfold contents at 1, appended. simpl. now rewrite lookup_insert_eq. Qed.

Lemma same_disk_with_heap (s1 s2 : state) :
  same_disk s1 s2 -> s2 = with_heap (heap s2) (next_loc s2) s1.
Proof. intros [D L]. destruct s1, s2; simpl in *. now subst. Qed.

(** The expansion of an item from two states with the same disk. *)
Lemma expand_same_disk (item : CatalogItem) (s1 s2 : state) :
  same_disk s1 s2 ->
  download_source_and_labels W item s2
  = on_state (with_heap (heap s2) (next_loc s2))
             (download_source_and_labels W item s1).
Proof.
  intros H. rewrite (same_disk_with_heap s1 s2 H) at 1.
  apply heap_blind_expand.
Qed.

Lemma features_loop_sim (l1 l2 : loc) (features : list CatalogItem) (n : Z)
    (s1 s2 : state) :
  same_disk s1 s2 ->
  sim eq l1 l2 s1 s2
    (features_loop W classes max_items_downloaded l1 features n s1)
    (features_loop W classes max_items_downloaded l2 features n s2).
Proof.
  revert n s1 s2. induction features as [|feature rest IH]; intros n s1 s2 H.
  - simpl. split; [reflexivity | now apply grown_refl].
  - destruct (matches_class classes feature) eqn:Hm.
    2:{ rewrite !features_loop_skip by exact Hm. now apply IH. }
    rewrite !features_loop_hit by exact Hm.
    set (e := EvPrint (GettingAssets (item_id feature))).
    assert (H' : same_disk (logged [e] s1) (logged [e] s2)).
    { destruct H as [D L]. split; simpl; congruence. }
    rewrite (expand_same_disk feature _ _ H').
    pose proof (heap_blind_heap (download_source_and_labels W feature)
                  (logged [e] s1)) as Hh.
    destruct (download_source_and_labels W feature (logged [e] s1))
      as [results t1|ex t1|]; simpl; [| | exact I].
    + destruct (Hh t1 (heap_blind_expand W feature) eq_refl) as [Hh1 _].
      simpl in Hh1.
      set (t2 := with_heap (heap (logged [e] s2)) (next_loc (logged [e] s2)) t1).
      assert (G : grown l1 l2 s1 s2 (appended l1 results t1)
                    (appended l2 results t2)).
      { split; [split; reflexivity |]. exists results.
        rewrite !contents_appended. unfold contents. simpl.
        now rewrite Hh1. }
      destruct (cap_reached max_items_downloaded (n + 1)).
      * split; [reflexivity | exact G].
      * specialize (IH (n + 1) (appended l1 results t1)
                       (appended l2 results t2)).
        assert (Hd : same_disk (appended l1 results t1)
                       (appended l2 results t2)) by (split; reflexivity).
        specialize (IH Hd).
        destruct (features_loop W classes max_items_downloaded l1 rest _ _)
          as [a1 u1|e1 u1|];
          destruct (features_loop W classes max_items_downloaded l2 rest _ _)
          as [a2 u2|e2 u2|]; simpl in IH; try contradiction; try exact I;
          destruct IH as [E G']; (split; [exact E |]);
          exact (grown_trans _ _ _ _ _ _ _ _ G G').
    + destruct (Hh t1 (heap_blind_expand W feature) eq_refl) as [Hh1 _].
      simpl in Hh1. split; [reflexivity |].
      split; [split; reflexivity |]. exists [].
      rewrite !app_nil_r. unfold contents. simpl. now rewrite Hh1.
Qed.

Lemma follow_sim (l1 l2 : loc) (recur1 recur2 : string -> M loc)
    (hrefs : list string) :
  (forall href s1 s2, same_disk s1 s2 ->
     sim (fun _ _ => True) l1 l2 s1 s2 (recur1 href s1) (recur2 href s2)) ->
  forall s1 s2, same_disk s1 s2 ->
    sim (fun _ _ => True) l1 l2 s1 s2
      (follow recur1 hrefs s1) (follow recur2 hrefs s2).
Proof.
  intros Hrec. induction hrefs as [|href rest IH]; intros s1 s2 H.
  - simpl. split; [exact I | now apply grown_refl].
  - simpl. unfold bind. specialize (Hrec href s1 s2 H).
    destruct (recur1 href s1) as [a1 t1|e1 t1|];
      destruct (recur2 href s2) as [a2 t2|e2 t2|]; simpl in Hrec;
      try contradiction; try exact I.
    + destruct Hrec as [_ G]. specialize (IH t1 t2 (proj1 G)).
      destruct (follow recur1 rest t1) as [b1 u1|x1 u1|];
        destruct (follow recur2 rest t2) as [b2 u2|x2 u2|]; simpl in IH;
        try contradiction; try exact I;
        destruct IH as [E G']; (split; [exact E |]);
        exact (grown_trans _ _ _ _ _ _ _ _ G G').
    + exact Hrec.
Qed.

(** Two walks that differ only in the list they accumulate in do the same
    things and append the same batches. *)
Lemma get_items_sim (l1 l2 : loc) (fuel : nat) :
  forall (uri : string) (n : Z) (s1 s2 : state),
    same_disk s1 s2 ->
    sim (fun a1 a2 => a1 = l1 /\ a2 = l2) l1 l2 s1 s2
      (get_items W fuel uri classes max_items_downloaded n l1 s1)
      (get_items W fuel uri classes max_items_downloaded n l2 s2).
Proof.
  induction fuel as [|fuel IH]; intros uri n s1 s2 H; [exact I |].
  set (es := [EvPrint (Loading uri); EvGet uri]).
  assert (H' : same_disk (logged es s1) (logged es s2)).
  { destruct H as [D L]. split; simpl; congruence. }
  assert (G0 : grown l1 l2 s1 s2 (logged es s1) (logged es s2)).
  { split; [exact H' |]. exists []. now rewrite !app_nil_r. }
  destruct (get_page W uri) as [e|[page|]] eqn:Hp.
  1,3: simpl; unfold bind, print, emit, request, expect; rewrite Hp; simpl;
       (split; [reflexivity |]);
       replace (logged [EvGet uri] (logged [EvPrint (Loading uri)] s1))
         with (logged es s1)
         by (unfold logged, es; simpl; now rewrite <- app_assoc);
       replace (logged [EvGet uri] (logged [EvPrint (Loading uri)] s2))
         with (logged es s2)
         by (unfold logged, es; simpl; now rewrite <- app_assoc);
       exact G0.
  rewrite !(get_items_page W classes max_items_downloaded _ fuel uri page)
    by exact Hp.
  fold es.
  pose proof (features_loop_sim l1 l2 (default [] (page_features page)) n
                _ _ H') as Hf.
  destruct (features_loop W classes max_items_downloaded l1 _ n _)
    as [[|n1] t1|e1 t1|];
    destruct (features_loop W classes max_items_downloaded l2 _ n _)
    as [[|n2] t2|e2 t2|]; simpl in Hf; try contradiction; try exact I;
    destruct Hf as [E G]; try discriminate.
  - split; [now split |]. exact (grown_trans _ _ _ _ _ _ _ _ G0 G).
  - inversion E; subst n2.
    pose proof (follow_sim l1 l2
      (fun href => get_items W fuel href classes max_items_downloaded n1 l1)
      (fun href => get_items W fuel href classes max_items_downloaded n1 l2)
      (next_hrefs (default [] (page_links page)))) as Hfo.
    specialize (Hfo (fun href u1 u2 Hu =>
      sim_weaken _ _ l1 l2 u1 u2 _ _ (fun _ _ _ => I)
        (IH href n1 u1 u2 Hu)) t1 t2 (proj1 G)).
    destruct (follow _ _ t1) as [b1 u1|x1 u1|];
      destruct (follow _ _ t2) as [b2 u2|x2 u2|]; simpl in Hfo;
      try contradiction; try exact I;
      destruct Hfo as [E' G']; (split; [first [now split | exact E'] |]);
      exact (grown_trans _ _ _ _ _ _ _ _ G0
               (grown_trans _ _ _ _ _ _ _ _ G G')).
  - split; [exact E |]. exact (grown_trans _ _ _ _ _ _ _ _ G0 G).
Qed.

End Accumulator.

(** ** Errors in the download of the tasks *)

Lemma requested_app (a b : list event) :
  requested (a ++ b) = requested a ++ requested b.
Proof. apply omap_app. Qed.

Section Batches.

Variable W : World.

(** One task: the redirect request is always made; nothing is printed;
    the call returns exactly when the task is not a failing one. *)
Lemma download_log (d : Task) (s : state) :
  exists s' es,
    final (download W d s) = Some s'
    /\ log s' = log s ++ EvGet (fst d) :: es
    /\ forallb silent es = true
    /\ returns (download W d s) = negb (download_fails W d).
Proof.
  destruct d as [href dest].
  unfold download, download_fails, get_download_uri, request, bind, emit,
    expect, ret, raise.
  cbn [fst snd].
  destruct (get_location W href) as [e|[uri|]].
  - exists (logged [EvGet href] s), []. now repeat split.
  - destruct (py_in (scheme (urlparse uri)) ["s3"]).
    + unfold download_s3, s3_download_file, bind, emit, expect, ret, raise.
      destruct (s3_object W _ _) as [data|].
      * eexists _, [_; _]. split; [reflexivity |].
        split; [cbn [log logged]; now rewrite <- !app_assoc | now split].
      * eexists _, [_]. split; [reflexivity |].
        split; [cbn [log logged]; now rewrite <- !app_assoc | now split].
    + destruct (py_in (scheme (urlparse uri)) ["http"; "https"]).
      * unfold download_http, request, bind, emit, ret, raise.
        destruct (http_chunks W uri) as [e|chunks].
        -- eexists _, [_]. split; [reflexivity |].
           split; [cbn [log logged]; now rewrite <- !app_assoc | now split].
        -- eexists _, [_; _]. split; [reflexivity |].
           split; [cbn [log logged]; now rewrite <- !app_assoc | now split].
      * exists (logged [EvGet href] s), []. now repeat split.
  - exists (logged [EvGet href] s), []. now repeat split.
Qed.

(** One batch on the pool: every task is requested, nothing is printed,
    and the call returns exactly when no task of the batch fails. *)
Lemma pool_map_download_log (batch : Batch) (s : state) :
  exists s' es,
    final (pool_map (download W) batch s) = Some s'
    /\ log s' = log s ++ es
    /\ forallb silent es = true
    /\ (forall task, task ∈ batch -> fst task ∈ requested es)
    /\ returns (pool_map (download W) batch s)
       = forallb (fun task => negb (download_fails W task)) batch.
Proof.
  revert s. induction batch as [|d batch IH]; intros s.
  - exists s, []. simpl. rewrite app_nil_r. repeat split.
    intros task H. inversion H.
  - destruct (download_log d s) as (s1 & es1 & F1 & L1 & P1 & R1).
    destruct (IH s1) as (s2 & es2 & F2 & L2 & P2 & Q2 & R2).
    exists s2, (EvGet (fst d) :: es1 ++ es2).
    assert (Hlog : log s2 = log s ++ EvGet (fst d) :: es1 ++ es2).
    { rewrite L2, L1. rewrite <- app_assoc. reflexivity. }
    assert (Hsil : forallb silent (EvGet (fst d) :: es1 ++ es2) = true).
    { simpl. now rewrite forallb_app, P1, P2. }
    assert (Hreq : forall task, task ∈ d :: batch ->
                     fst task ∈ requested (EvGet (fst d) :: es1 ++ es2)).
    { intros task Ht. change (fst task ∈ fst d :: requested (es1 ++ es2)).
      apply elem_of_cons in Ht as [-> | Ht]; [left | right].
      rewrite requested_app. apply elem_of_app. right. now apply Q2. }
    simpl. rewrite <- R1, <- R2.
    destruct (download W d s) as [a t|e t|]; simpl in F1; inversion F1;
      subst t;
      destruct (pool_map (download W) batch s1) as [bs u|e' u|];
      simpl in F2; inversion F2; subst u; simpl; now repeat split.
Qed.

(** What the code does with an error raised while a task is resolved or
    fetched: it is not caught in the worker and nothing is printed about it;
    the pool runs every task of the batch (the siblings of the failing
    task are requested too) and then raises in the driver, whose loop over
    the batches ends there, so that the batches after the failing one are
    never handed to the pool. *)
Theorem download_errors_propagate (before after : list Task) (d : Task)
    (later : list Batch) (s : state) :
  download_fails W d = true ->
  exists e s' es,
    run_downloads W ((before ++ d :: after) :: later) s = Exn e s'
    /\ pool_map (download W) (before ++ d :: after) s = Exn e s'
    /\ log s' = log s ++ es
    /\ printed es = []
    /\ (forall task, task ∈ before ++ d :: after -> fst task ∈ requested es).
Proof.
  intros Hd.
  destruct (pool_map_download_log (before ++ d :: after) s)
    as (s' & es & F & L & P & Q & R).
  assert (Hr : returns (pool_map (download W) (before ++ d :: after) s)
               = false).
  { rewrite R, forallb_app. simpl. rewrite Hd. simpl.
    now rewrite andb_false_r. }
  simpl. unfold bind.
  destruct (pool_map (download W) (before ++ d :: after) s) as [bs t|e t|];
    simpl in F, Hr; try discriminate.
  inversion F; subst t. exists e, s', es. repeat split; try assumption.
  clear -P. induction es as [|x es IH]; [reflexivity |].
  simpl in P. apply andb_prop in P as [Px Pes]. unfold printed. simpl.
  destruct x; try discriminate; now apply IH.
Qed.

End Batches.

(** ** The default list of [get_items] *)

Lemma app_not_self {A} (a b : list A) : a <> [] -> a ++ b <> b.
Proof.
  intros Ha E. apply (f_equal (@List.length A)) in E.
  rewrite length_app in E. destruct a; [congruence | simpl in E; lia].
Qed.

(** C10. The list that [get_items] accumulates in when [downloads] is
    left out is one object, made when the function is defined.  Of two
    successive calls that leave it out, both return that object; after the
    second call it holds what it held after the first, followed by the
    batches of the second call itself, which are the batches the same call
    returns when it is given a fresh list.  So the result is not determined
    by the arguments: unless the list was empty before, the second call
    returns something else than it returns on a fresh list. *)
Theorem default_list_is_shared (W : World) (dflt : loc)
    (fuel1 fuel2 : nat) (uri1 uri2 : string)
    (classes1 classes2 : option (list string)) (max1 max2 : option Z)
    (s0 s1 s2 : state) (r1 r2 : loc) :
  call_get_items W dflt fuel1 uri1 classes1 max1 None None s0 = Ret r1 s1 ->
  call_get_items W dflt fuel2 uri2 classes2 max2 None None s1 = Ret r2 s2 ->
  r1 = dflt /\ r2 = dflt
  /\ exists own1 own2,
       contents s1 r1 = contents s0 dflt ++ own1
       /\ contents s2 r2 = contents s1 r1 ++ own2
       /\ (exists t,
             (let* fresh := new_list in
              call_get_items W dflt fuel1 uri1 classes1 max1 None (Some fresh))
               s0 = Ret (next_loc s0) t
             /\ contents t (next_loc s0) = own1)
       /\ (exists t,
             (let* fresh := new_list in
              call_get_items W dflt fuel2 uri2 classes2 max2 None (Some fresh))
               s1 = Ret (next_loc s1) t
             /\ contents t (next_loc s1) = own2)
       /\ (contents s1 r1 <> [] -> contents s2 r2 <> own2).
Proof.
  unfold call_get_items, bind, new_list. simpl. intros E1 E2.
  assert (Fresh : forall fuel uri classes max s r s',
    get_items W fuel uri classes max 0 dflt s = Ret r s' ->
    r = dflt
    /\ exists own,
         contents s' dflt = contents s dflt ++ own
         /\ exists t,
              get_items W fuel uri classes max 0 (next_loc s)
                {| heap := <[next_loc s := []]> (heap s);
                   next_loc := S (next_loc s);
                   dirs := dirs s; log := log s |} = Ret (next_loc s) t
              /\ contents t (next_loc s) = own).
  { intros fuel uri classes max s r s' E.
    pose proof (get_items_sim W classes max dflt (next_loc s) fuel uri 0 s
                  {| heap := <[next_loc s := []]> (heap s);
                     next_loc := S (next_loc s);
                     dirs := dirs s; log := log s |}
                  (conj eq_refl eq_refl)) as Hs.
    rewrite E in Hs.
    destruct (get_items W fuel uri classes max 0 (next_loc s) _)
      as [a t|e t|]; simpl in Hs; try contradiction.
    destruct Hs as [[-> ->] [_ (delta & D1 & D2)]].
    split; [reflexivity |]. exists delta. split; [exact D1 |].
    exists t. split; [reflexivity |].
    rewrite D2. unfold contents. simpl. now rewrite lookup_insert_eq. }
  destruct (Fresh _ _ _ _ _ _ _ E1) as (-> & own1 & A1 & t1 & T1 & C1).
  destruct (Fresh _ _ _ _ _ _ _ E2) as (-> & own2 & A2 & t2 & T2 & C2).
  repeat split. exists own1, own2.
  split; [exact A1 |]. split; [exact A2 |].
  split; [now exists t1 |]. split; [now exists t2 |].
  intros Hne. rewrite A2. now apply app_not_self.
Qed.

(** ** When the expansion raises, and what it returns *)

Section Raising.

Variable W : World.










End Raising.

(** ** The notebook on the small catalog *)

Section Examples.

Import Demo.

Example def_makes_default_list : def_get_items init = Ret 0%nat started.
Proof. reflexivity. Qed.

Example urlparse_s3 :
  urlparse "s3://bucket/path/to/file.tif"
  = {| scheme := "s3"; netloc := "bucket"; path := "/path/to/file.tif" |}.
Proof. reflexivity. Qed.

Example urlparse_https :
  urlparse "HTTPS://host.example/a/b.tif;v=1?x=1#frag"
  = {| scheme := "https"; netloc := "host.example"; path := "/a/b.tif" |}.
Proof. reflexivity. Qed.

Example os_path_join_examples :
  os_path_join "landcovernet/x/" "2018_01_05" = "landcovernet/x/2018_01_05"
  /\ os_path_join "landcovernet/x/2018_01_05" "B02.tif"
     = "landcovernet/x/2018_01_05/B02.tif"
  /\ os_path_join "" "f" = "f"
  /\ os_path_join "a" "/f" = "/f".
Proof. repeat split; reflexivity. Qed.

Example format_example :
  format_YYYY_MM_DD {| year := 2018; month := 1; day := 5 |} = "2018_01_05"
  /\ format_YYYY_MM_DD {| year := 987; month := 12; day := 31 |}
     = "0987_12_31".
Proof. split; reflexivity. Qed.

(** A listing of two items, of which one carries a label of the filter:
    one item is expanded, the other contributes nothing. *)
Example walk_with_filter :
  (fun s => (loaded (log s), expanded (log s), contents s 0%nat))
    <$> final (get_items world 3 "p1" (Some ["Water"]) None 0 0%nat started)
  = Some (["p1"; "p2"], ["water"],
          [[("api/s1/B02", "landcovernet/water/2018_01_05");
            ("api/s1/B03", "landcovernet/water/2018_01_05")];
           [];
           [("api/water/labels", "landcovernet/water/")]]).
Proof. vm_compute. reflexivity. Qed.

(** The filter on the items of the same catalog. *)
Example filter_examples :
  matches_class (Some ["Water"]) water = true
  /\ matches_class (Some ["Water"]) nodata = false
  /\ matches_class (Some ["Water"]) plain = false
  /\ matches_class None plain = true
  /\ matches_class (Some []) water = false.
Proof. repeat split; reflexivity. Qed.

(** C2, on the code.  With a cap of 0 the walk still expands the first
    item that passes the filter: the counter is compared with the cap only
    after an expansion. *)
Theorem cap_zero_expands_one_item :
  outcome (get_items world 3 "p2" None (Some 0) 0 0%nat started)
  = Some (inl 0%nat)
  /\ (fun s => (expanded (log s), contents s 0%nat))
       <$> final (get_items world 3 "p2" None (Some 0) 0 0%nat started)
     = Some (["plain"], [[("api/plain/labels", "landcovernet/plain/")]]).
Proof. split; vm_compute; reflexivity. Qed.

(** C3, on the code.  A page with two "next" links: the walk follows
    both, the second after the call on the first has come back.  With a
    cap of 1, reached on the first continuation, the item of the second is
    expanded all the same. *)
Theorem both_next_links_followed :
  (loaded ∘ log)
    <$> final (get_items world 3 "fork" None None 0 0%nat started)
  = Some ["fork"; "p2"; "p3"]
  /\ (fun s => (loaded (log s), expanded (log s)))
       <$> final (get_items world 3 "fork" None (Some 1) 0 0%nat started)
     = Some (["fork"; "p2"; "p3"], ["plain"; "extra"]).
Proof. split; vm_compute; reflexivity. Qed.

(** C4, on the code.  A task whose redirect response has no Location
    header: the error is not caught in the worker.  [download] raises,
    nothing is printed, the driver's loop is left with the exception and
    the batch after it is never requested. *)
Theorem download_error_reaches_driver :
  outcome (download world ("api/water/labels", "landcovernet/water/") started)
  = Some (inr (KeyError "location"))
  /\ outcome (run_downloads world
                [[("api/water/labels", "landcovernet/water/")];
                 [("api/s1/B02", "landcovernet/water/2018_01_05")]] started)
     = Some (inr (KeyError "location"))
  /\ log <$> final (run_downloads world
                [[("api/water/labels", "landcovernet/water/")];
                 [("api/s1/B02", "landcovernet/water/2018_01_05")]] started)
     = Some [EvGet "api/water/labels"].
Proof. repeat split; vm_compute; reflexivity. Qed.

(** C6, on the code.  A sub-item reference answered by an error page (as
    with a 500 status): the request does not raise, the reading of the
    response does, outside the [try].  The expansion of the item raises,
    so neither the tasks of the sibling sub-item nor the labels task are
    produced; nothing is reported; the walk is left with the exception and
    has accumulated nothing. *)
Theorem undecodable_subitem_aborts_expansion :
  get_subitem world "s500" = Answered None
  /\ sub_ok world "s1" = true
  /\ outcome (download_source_and_labels world broken started)
     = Some (inr JSONDecodeError)
  /\ outcome (get_items world 3 "bad" None None 0 0%nat started)
     = Some (inr JSONDecodeError)
  /\ (fun s => (printed (log s), contents s 0%nat))
       <$> final (get_items world 3 "bad" None None 0 0%nat started)
     = Some ([Loading "bad"; GettingAssets "broken"], []).
Proof. repeat split; vm_compute; reflexivity. Qed.

(** C5, on the code.  The item "broken" has a labels asset and two source
    references: the document of the first is fetched and has two assets,
    the second is answered by an error page.  With one sub-item fetched the
    expansion is to yield 2 + 1 tasks; it raises and yields none, so the
    tasks of the fetched sub-item and the labels task are lost with it, and
    the list of the walk receives nothing. *)
Theorem fetched_subitem_tasks_are_lost :
  source_hrefs broken = ["s1"; "s500"]
  /\ fetched world "s1" = Some doc1
  /\ fetched world "s500" = None
  /\ dict_get "labels" (item_assets broken)
     = Some {| asset_href := "api/broken/labels" |}
  /\ (list_sum (List.map (asset_count world) (source_hrefs broken)) + 1)%nat
     = 3%nat
  /\ outcome (download_source_and_labels world broken started)
     = Some (inr JSONDecodeError)
  /\ (fun s => contents s 0%nat)
       <$> final (get_items world 3 "bad" None None 0 0%nat started)
     = Some [].
Proof. repeat split; vm_compute; reflexivity. Qed.

(** On the same catalog, a sub-item whose request raises is reported and
    skipped, and the expansion goes on. *)
Example unreachable_subitem_is_skipped :
  (fun s => printed (log s))
    <$> final (download_source_and_labels world water started)
  = Some [CouldNotLoad "s2"]
  /\ outcome (download_source_and_labels world water started)
     = Some (inl [[("api/s1/B02", "landcovernet/water/2018_01_05");
                   ("api/s1/B03", "landcovernet/water/2018_01_05")];
                  [];
                  [("api/water/labels", "landcovernet/water/")]]).
Proof. split; vm_compute; reflexivity. Qed.

End Examples.

(** ** The general statements at work on the small catalog *)




(** An item whose two source references lead to one date directory: each
    worker gets through on its own, but the item is not among those the
    statements on returning runs are made for. *)
Example twin_dates_meet :
  expandable Demo.world Demo3.twin = true
  /\ date_dirs Demo.world Demo3.twin
     = ["landcovernet/twin/2018_01_05"; "landcovernet/twin/2018_01_05"]
  /\ dates_apart Demo.world Demo3.twin = false.
Proof. repeat split; vm_compute; reflexivity. Qed.




Lemma download_errors_propagate_witness :
  download_fails Demo.world ("api/water/labels", "landcovernet/water/") = true
  /\ exists e s' es,
       run_downloads Demo.world
         (([("api/s1/B02", "landcovernet/water/2018_01_05")]
           ++ ("api/water/labels", "landcovernet/water/")
              :: [("api/s1/B03", "landcovernet/water/2018_01_05")])
          :: [[("api/plain/labels", "landcovernet/plain/")]]) Demo.started
       = Exn e s'
       /\ pool_map (download Demo.world)
            ([("api/s1/B02", "landcovernet/water/2018_01_05")]
             ++ ("api/water/labels", "landcovernet/water/")
                :: [("api/s1/B03", "landcovernet/water/2018_01_05")])
            Demo.started = Exn e s'
       /\ log s' = log Demo.started ++ es
       /\ printed es = []
       /\ (forall task,
             task ∈ [("api/s1/B02", "landcovernet/water/2018_01_05")]
                    ++ ("api/water/labels", "landcovernet/water/")
                       :: [("api/s1/B03", "landcovernet/water/2018_01_05")] ->
             fst task ∈ requested es).
Proof.
  split; [reflexivity |].
  apply (download_errors_propagate Demo.world
           [("api/s1/B02", "landcovernet/water/2018_01_05")]
           [("api/s1/B03", "landcovernet/water/2018_01_05")]
           ("api/water/labels", "landcovernet/water/")
           [[("api/plain/labels", "landcovernet/plain/")]] Demo.started).
  reflexivity.
Defined.


Lemma default_list_is_shared_witness :
  call_get_items Demo.world 0%nat 3 "p2" None None None None Demo.started
  = Ret 0%nat Demo.after1
  /\ call_get_items Demo.world 0%nat 3 "p2" None None None None Demo.after1
     = Ret 0%nat Demo.after2
  /\ contents Demo.after1 0%nat
     = [[("api/plain/labels", "landcovernet/plain/")]]
  /\ contents Demo.after2 0%nat
     = [[("api/plain/labels", "landcovernet/plain/")];
        [("api/plain/labels", "landcovernet/plain/")]]
  /\ exists own1 own2,
       contents Demo.after1 0%nat = contents Demo.started 0%nat ++ own1
       /\ contents Demo.after2 0%nat = contents Demo.after1 0%nat ++ own2.
Proof.
  assert (H1 : call_get_items Demo.world 0%nat 3 "p2" None None None None
                 Demo.started = Ret 0%nat Demo.after1)
    by (vm_compute; reflexivity).
  assert (H2 : call_get_items Demo.world 0%nat 3 "p2" None None None None
                 Demo.after1 = Ret 0%nat Demo.after2)
    by (vm_compute; reflexivity).
  split; [exact H1 |]. split; [exact H2 |].
  split; [vm_compute; reflexivity |]. split; [vm_compute; reflexivity |].
  destruct (default_list_is_shared Demo.world 0%nat 3 3 "p2" "p2" None None
              None None Demo.started Demo.after1 Demo.after2 0%nat 0%nat
              H1 H2) as (_ & _ & own1 & own2 & A1 & A2 & _).
  now exists own1, own2.
Defined.

(** ** What a walk expands *)


Section WalkResult.

Variable W : World.
Variable classes : option (list string).
Variable max_items_downloaded : option Z.
Variable downloads : loc.









End WalkResult.



(** ** What a walk leaves alone *)

Section Keeps.

Variable W : World.
Variable classes : option (list string).
Variable max_items_downloaded : option Z.
Variable downloads : loc.
Variable R : state -> state -> Prop.
Hypothesis R_refl : forall s, R s s.
Hypothesis R_trans : forall s t u, R s t -> R t u -> R s u.

Lemma follow_keeps (recur : string -> M loc) (hrefs : list string) :
  (forall href, keeps R (recur href)) -> keeps R (follow recur hrefs).
Proof.
  intros Hrec. induction hrefs as [|href rest IH]; intros s s' F.
  - simpl in F. inversion F. apply R_refl.
  - simpl in F. unfold bind in F.
    destruct (recur href s) as [a t|e t|] eqn:E; simpl in F.
    + apply (R_trans s t s'); [apply (Hrec href); now rewrite E |].
      now apply IH.
    + inversion F; subst. apply (Hrec href). now rewrite E.
    + discriminate.
Qed.

Lemma get_items_keeps :
  (forall uri s, R s (logged [EvPrint (Loading uri); EvGet uri] s)) ->
  (forall features n,
      keeps R (features_loop W classes max_items_downloaded downloads
                             features n)) ->
  forall fuel uri n,
    keeps R (get_items W fuel uri classes max_items_downloaded n downloads).
Proof.
  intros Hload Hfeat. induction fuel as [|fuel IH]; intros uri n s s' F;
    [discriminate |].
  destruct (get_page W uri) as [e|[page|]] eqn:Hp.
  1,3: destruct (get_items_no_page W classes max_items_downloaded downloads
                   fuel uri n s) as [e' E]; [intros p; congruence |];
       rewrite E in F; inversion F; subst; apply Hload.
  rewrite (get_items_page W classes max_items_downloaded downloads fuel uri
             page) in F by exact Hp.
  apply (R_trans s (logged [EvPrint (Loading uri); EvGet uri] s) s');
    [apply Hload |].
  destruct (features_loop W classes max_items_downloaded downloads _ n _)
    as [[|n'] t|e t|] eqn:E; simpl in F.
  - inversion F; subst. apply (Hfeat (default [] (page_features page)) n). now rewrite E.
  - apply (R_trans _ t s');
      [apply (Hfeat (default [] (page_features page)) n); now rewrite E |].
    apply (follow_keeps
             (fun href => get_items W fuel href classes max_items_downloaded
                                    n' downloads)
             (next_hrefs (default [] (page_links page)))
             (fun href => IH href n') t s').
    now destruct (follow _ _ t).
  - inversion F; subst. apply (Hfeat (default [] (page_features page)) n). now rewrite E.
  - discriminate.
Qed.

Lemma features_loop_keeps :
  (forall id s, R s (logged [EvPrint (GettingAssets id)] s)) ->
  (forall item, keeps R (download_source_and_labels W item)) ->
  (forall results s, R s (appended downloads results s)) ->
  forall features n,
    keeps R (features_loop W classes max_items_downloaded downloads
                           features n).
Proof.
  intros Hprint Hexp Happ. induction features as [|feature rest IH];
    intros n s s' F.
  - simpl in F. inversion F. apply R_refl.
  - destruct (matches_class classes feature) eqn:Hm.
    2:{ rewrite features_loop_skip in F by exact Hm. now apply (IH n). }
    rewrite features_loop_hit in F by exact Hm.
    apply (R_trans s _ s' (Hprint (item_id feature) s)).
    destruct (download_source_and_labels W feature _) as [rs t|e t|] eqn:E;
      simpl in F.
    + apply (R_trans _ t s'); [apply (Hexp feature); now rewrite E |].
      apply (R_trans _ _ s' (Happ rs t)).
      destruct (cap_reached max_items_downloaded (n + 1)).
      * inversion F. apply R_refl.
      * now apply (IH (n + 1)).
    + inversion F; subst. apply (Hexp feature). now rewrite E.
    + discriminate.
Qed.

End Keeps.

Lemma only_appends_refl (l : loc) (s : state) : only_appends l s s.
Proof.
  split; [reflexivity |]. split; [reflexivity |].
  exists []. now rewrite app_nil_r.
Qed.

Lemma only_appends_trans (l : loc) (s t u : state) :
  only_appends l s t -> only_appends l t u -> only_appends l s u.
Proof.
  intros (N1 & O1 & d1 & C1) (N2 & O2 & d2 & C2).
  split; [congruence |]. split.
  - intros l' Hl. rewrite O2, O1 by exact Hl. reflexivity.
  - exists (d1 ++ d2). rewrite C2, C1. now rewrite <- app_assoc.
Qed.

Lemma only_appends_same_heap (l : loc) (s s' : state) :
  heap s' = heap s -> next_loc s' = next_loc s -> only_appends l s s'.
Proof.
  intros Hh Hn. split; [exact Hn |]. split; [now rewrite Hh |].
  exists []. unfold contents. now rewrite Hh, app_nil_r.
Qed.

(** X3. Whatever a walk does and however it ends (by returning or by an
    exception), in the heap it only appends to the list it was given: that
    list holds what it held before, followed by the new batches; no other
    list is changed and none is made. *)
Theorem walk_only_appends (W : World) (fuel : nat) (uri : string)
    (classes : option (list string)) (max_items_downloaded : option Z)
    (n : Z) (downloads : loc) (s s' : state) :
  final (get_items W fuel uri classes max_items_downloaded n downloads s)
  = Some s' ->
  next_loc s' = next_loc s
  /\ (forall l', l' <> downloads -> heap s' !! l' = heap s !! l')
  /\ exists delta,
       contents s' downloads = contents s downloads ++ delta.
Proof.
  apply (get_items_keeps W classes max_items_downloaded downloads
           (only_appends downloads)
           (only_appends_refl downloads) (only_appends_trans downloads)).
  - intros u t. now apply only_appends_same_heap.
  - apply features_loop_keeps.
    + apply only_appends_refl.
    + apply only_appends_trans.
    + intros id t. now apply only_appends_same_heap.
    + intros item t t' F.
      destruct (heap_blind_heap (download_source_and_labels W item) t t'
                  (heap_blind_expand W item) F) as [Hh Hn].
      now apply only_appends_same_heap.
    + intros results t. split; [reflexivity |]. split.
      * intros l' Hl. unfold appended. simpl.
        now rewrite lookup_insert_ne by congruence.
      * exists results. apply contents_appended.
Qed.

Lemma only_loads_refl (s : state) : only_loads s s.
Proof.
  repeat split. exists []. simpl. now rewrite app_nil_r.
Qed.

Lemma only_loads_trans (s t u : state) :
  only_loads s t -> only_loads t u -> only_loads s u.
Proof.
  intros (H1 & N1 & D1 & us1 & L1) (H2 & N2 & D2 & us2 & L2).
  repeat split; try congruence.
  exists (us1 ++ us2). rewrite L2, L1, flat_map_app.
  now rewrite <- app_assoc.
Qed.

Lemma matches_class_empty (feature : CatalogItem) :
  matches_class (Some []) feature = false.
Proof.
  unfold matches_class.
  induction (default [] (item_labels feature)) as [|x l IH];
    [reflexivity | exact IH].
Qed.

(** X4. An empty class list is a filter that nothing passes (it is not
    the same as no filter): the walk then only loads listing pages.  No
    item is expanded, no sub-item is requested, no directory is made and the
    list is left as it was. *)
Theorem empty_class_list_expands_nothing (W : World) (fuel : nat)
    (uri : string) (max_items_downloaded : option Z) (n : Z)
    (downloads : loc) (s s' : state) :
  final (get_items W fuel uri (Some []) max_items_downloaded n downloads s)
  = Some s' ->
  heap s' = heap s /\ dirs s' = dirs s
  /\ exists uris,
       log s' = log s
                ++ flat_map (fun u => [EvPrint (Loading u); EvGet u]) uris
       /\ loaded (log s') = loaded (log s) ++ uris
       /\ expanded (log s') = expanded (log s).
Proof.
  intros F.
  assert (H : only_loads s s').
  { revert F.
    apply (get_items_keeps W (Some []) max_items_downloaded downloads
             only_loads only_loads_refl only_loads_trans).
    - intros u t. repeat split. exists [u]. reflexivity.
    - intros features m. induction features as [|f rest IH]; intros t t' Ft.
      + simpl in Ft. inversion Ft. apply only_loads_refl.
      + rewrite features_loop_skip in Ft by apply matches_class_empty.
        now apply IH. }
  destruct H as (Hh & _ & Hd & uris & L).
  split; [exact Hh |]. split; [exact Hd |]. exists uris.
  split; [exact L |]. rewrite L, loaded_app, expanded_app.
  clear. induction uris as [|u us [IH1 IH2]]; simpl.
  - now rewrite !app_nil_r.
  - split.
    + f_equal. change (u :: loaded (flat_map
                 (fun u0 => [EvPrint (Loading u0); EvGet u0]) us) = u :: us).
      f_equal. now apply app_inv_head in IH1.
    + change (expanded (log s) ++ expanded (flat_map
                 (fun u0 => [EvPrint (Loading u0); EvGet u0]) us)
              = expanded (log s)).
      exact IH2.
Qed.


(** ** More on the expansion of an item *)

Section ExpansionMore.

Variable W : World.













End ExpansionMore.

(** ** More on the downloader *)

Lemma logged_logged (a b : list event) (s : state) :
  logged b (logged a s) = logged (a ++ b) s.
Proof. unfold logged. simpl. now rewrite app_assoc. Qed.

Lemma logged_nil (s : state) : logged [] s = s.
Proof. destruct s. unfold logged. simpl. now rewrite app_nil_r. Qed.








Section DownloaderMore.

Variable W : World.



Lemma download_unsupported (d : Task) (s : state) :
  unsupported W d = true ->
  download W d s = Ret tt (logged [EvGet (fst d)] s).
Proof.
  destruct d as [href dest]. unfold unsupported. cbn [fst].
  destruct (get_location W href) as [e|[uri|]] eqn:Hloc; try discriminate.
  intros H. apply andb_prop in H as [_ H]. apply negb_true_iff in H.
  unfold py_in in H. simpl in H.
  apply orb_false_iff in H as [H1 H]. apply orb_false_iff in H as [H2 H].
  apply orb_false_iff in H as [H3 _].
  unfold download, get_download_uri, request, bind, emit, expect, ret.
  cbn [fst snd]. rewrite Hloc. unfold py_in. simpl. now rewrite H1, H2, H3.
Qed.

Lemma pool_map_unsupported (batch : Batch) (s : state) :
  (forall task, task ∈ batch -> unsupported W task = true) ->
  exists units,
    pool_map (download W) batch s
    = Ret units (logged (List.map (fun task => EvGet (fst task)) batch) s).
Proof.
  revert s. induction batch as [|d batch IH]; intros s H.
  - exists []. simpl. now rewrite logged_nil.
  - simpl. rewrite download_unsupported by (apply H; left).
    destruct (IH (logged [EvGet (fst d)] s)) as [units E].
    { intros task Ht. apply H. now right. }
    rewrite E. exists (tt :: units). now rewrite logged_logged.
Qed.

(** X12. Tasks whose redirect leads to a scheme other than s3, http and
    https are passed over: a run over batches of such tasks returns
    normally, and all it has done is the redirect requests, batch after
    batch, those of one batch in the order of the workers of the pool,
    which is left open.  No file is written, no directory is made and
    [print] is not called (the progress bar of [tqdm] is not part of the
    log). *)
Theorem unsupported_schemes_are_skipped (batches : list Batch) (s : state) :
  (forall batch task, batch ∈ batches -> task ∈ batch ->
                      unsupported W task = true) ->
  exists ess : list (list event),
    run_downloads W batches s = Ret tt (logged (concat ess) s)
    /\ Forall2 (fun es batch =>
                  es ≡ₚ List.map (fun task => EvGet (fst task)) batch)
               ess batches.
Proof.
  revert s. induction batches as [|batch rest IH]; intros s H.
  - exists []. simpl. rewrite logged_nil. split; [reflexivity | constructor].
  - simpl. unfold bind.
    destruct (pool_map_unsupported batch s) as [units E].
    { intros task Ht. apply (H batch); [left | exact Ht]. }
    rewrite E.
    destruct (IH (logged (List.map (fun task => EvGet (fst task)) batch) s))
      as (ess & E2 & F2).
    { intros b task Hb. apply H. now right. }
    exists (List.map (fun task => EvGet (fst task)) batch :: ess).
    rewrite E2, logged_logged. split; [reflexivity |].
    now constructor.
Qed.


End DownloaderMore.

(** ** A download cell, and a walk that meets a page it cannot load *)

Lemma heap_blind_run_downloads (W : World) (batches : list Batch) :
  heap_blind (run_downloads W batches).
Proof.
  induction batches as [|batch rest IH]; simpl.
  - apply heap_blind_ret.
  - apply heap_blind_bind; [| intros _; exact IH].
    apply heap_blind_pool_map. intros d. apply heap_blind_download.
Qed.

(** X14. A download cell of the notebook passes a fresh list to the walk,
    and so does not depend on what the lists of the heap hold, the default
    list of [get_items] among them: run in two states that differ in their
    heaps only, it ends the same way, with the same log and the same
    directories. *)
Theorem download_cell_ignores_heap (W : World) (dflt1 dflt2 : loc)
    (fuel : nat) (uri : string) (classes : option (list string))
    (max_items_downloaded : option Z) (s1 s2 : state) :
  same_disk s1 s2 ->
  outcome (download_cell W dflt1 fuel uri classes max_items_downloaded s1)
  = outcome (download_cell W dflt2 fuel uri classes max_items_downloaded s2)
  /\ log <$> final (download_cell W dflt1 fuel uri classes
                      max_items_downloaded s1)
     = log <$> final (download_cell W dflt2 fuel uri classes
                        max_items_downloaded s2)
  /\ dirs <$> final (download_cell W dflt1 fuel uri classes
                       max_items_downloaded s1)
     = dirs <$> final (download_cell W dflt2 fuel uri classes
                         max_items_downloaded s2).
Proof.
  intros [Hd Hl].
  unfold download_cell, call_get_items, bind, new_list. simpl.
  set (t1 := {| heap := <[next_loc s1 := []]> (heap s1);
                next_loc := S (next_loc s1);
                dirs := dirs s1; log := log s1 |}).
  set (t2 := {| heap := <[next_loc s2 := []]> (heap s2);
                next_loc := S (next_loc s2);
                dirs := dirs s2; log := log s2 |}).
  pose proof (get_items_sim W classes max_items_downloaded (next_loc s1)
                (next_loc s2) fuel uri 0 t1 t2 (conj Hd Hl)) as Hs.
  destruct (get_items W fuel uri classes max_items_downloaded 0
              (next_loc s1) t1) as [a1 u1|e1 u1|];
    destruct (get_items W fuel uri classes max_items_downloaded 0
                (next_loc s2) t2) as [a2 u2|e2 u2|];
    simpl in Hs; try contradiction.
  - destruct Hs as [[-> ->] [Hu (delta & C1 & C2)]].
    assert (E : contents u2 (next_loc s2) = contents u1 (next_loc s1)).
    { rewrite C1, C2. unfold contents, t1, t2. simpl.
      now rewrite !lookup_insert_eq. }
    rewrite E.
    assert (Hrun : run_downloads W (contents u1 (next_loc s1)) u2
                   = on_state (with_heap (heap u2) (next_loc u2))
                       (run_downloads W (contents u1 (next_loc s1)) u1)).
    { rewrite (same_disk_with_heap u1 u2 Hu) at 1.
      apply heap_blind_run_downloads. }
    rewrite Hrun.
    now destruct (run_downloads W (contents u1 (next_loc s1)) u1).
  - destruct Hs as [-> [[Hu1 Hu2] _]]. simpl. now rewrite Hu1, Hu2.
  - now repeat split.
Qed.

Section BrokenChain.

Variable W : World.
Variable classes : option (list string).
Variable downloads : loc.




End BrokenChain.

(** ** The cap, from one item on *)

(** X16. With a cap [k >= 1] and pages that offer at most one
    continuation each, a walk expands at most [k] items, however it ends
    and whatever the catalog holds (items whose expansion raises, pages
    that do not arrive, pages that link back). *)
Theorem cap_holds_from_one (W : World) (classes : option (list string))
    (k : Z) (downloads : loc) (fuel : nat) (uri : string) (s s' : state) :
  single_next W ->
  1 <= k ->
  final (get_items W fuel uri classes (Some k) 0 downloads s) = Some s' ->
  exists es, log s' = log s ++ es
             /\ Z.of_nat (List.length (expanded es)) <= k.
Proof.
  intros Hs Hk F.
  destruct (cap_bound W classes k downloads Hs fuel uri 0 s s' F)
    as (es & L & B).
  exists es. split; [exact L | lia].
Qed.

(** ** The further statements at work on the small catalog *)

Lemma line_single_next : single_next Demo2.line.
Proof.
  intros uri page Hp. unfold Demo2.line in Hp. cbn [get_page] in Hp.
  destruct (String.eqb uri "p1");
    [vm_compute in Hp; inversion Hp; subst page; vm_compute; lia |].
  destruct (String.eqb uri "p2");
    [vm_compute in Hp; inversion Hp; subst page; vm_compute; lia |].
  discriminate.
Qed.



Lemma walk_only_appends_witness :
  final (get_items Demo.world 3 "p2" None None 0 0%nat Demo2.dirty)
  = Some (default Demo2.dirty
            (final (get_items Demo.world 3 "p2" None None 0 0%nat
                      Demo2.dirty)))
  /\ exists delta,
       contents (default Demo2.dirty
                   (final (get_items Demo.world 3 "p2" None None 0 0%nat
                             Demo2.dirty))) 0%nat
       = [[("x", "y")]] ++ delta.
Proof.
  assert (F : final (get_items Demo.world 3 "p2" None None 0 0%nat
                       Demo2.dirty)
              = Some (default Demo2.dirty
                        (final (get_items Demo.world 3 "p2" None None 0 0%nat
                                  Demo2.dirty))))
    by (vm_compute; reflexivity).
  split; [exact F |].
  destruct (walk_only_appends Demo.world 3 "p2" None None 0 0%nat
              Demo2.dirty _ F) as (_ & _ & delta & C).
  exists delta. exact C.
Defined.

Lemma empty_class_list_expands_nothing_witness :
  final (get_items Demo.world 3 "p1" (Some []) None 0 0%nat Demo.started)
  = Some Demo2.after_empty
  /\ heap Demo2.after_empty = heap Demo.started
  /\ dirs Demo2.after_empty = dirs Demo.started.
Proof.
  assert (F : final (get_items Demo.world 3 "p1" (Some []) None 0 0%nat
                       Demo.started) = Some Demo2.after_empty)
    by (vm_compute; reflexivity).
  split; [exact F |].
  destruct (empty_class_list_expands_nothing Demo.world 3 "p1" None 0 0%nat
              Demo.started Demo2.after_empty F) as (Hh & Hd & _).
  now split.
Defined.

Lemma unsupported_schemes_are_skipped_witness :
  (forall batch task,
      batch ∈ [[("api/ftp", "landcovernet/water/")]] -> task ∈ batch ->
      unsupported Demo2.world task = true)
  /\ exists ess,
       run_downloads Demo2.world [[("api/ftp", "landcovernet/water/")]]
         Demo.started
       = Ret tt (logged (concat ess) Demo.started)
       /\ Forall2 (fun es batch =>
                     es ≡ₚ List.map (fun task => EvGet (fst task)) batch)
                  ess [[("api/ftp", "landcovernet/water/")]].
Proof.
  assert (H : forall batch task,
             batch ∈ [[("api/ftp", "landcovernet/water/")]] ->
             task ∈ batch -> unsupported Demo2.world task = true).
  { intros batch task Hb Ht.
    apply list_elem_of_singleton in Hb as ->.
    apply list_elem_of_singleton in Ht as ->. reflexivity. }
  split; [exact H |].
  exact (unsupported_schemes_are_skipped Demo2.world
           [[("api/ftp", "landcovernet/water/")]] Demo.started H).
Defined.








Lemma download_cell_ignores_heap_witness :
  same_disk Demo.started Demo2.dirty
  /\ log <$> final (download_cell Demo.world 0%nat 3 "p2" None None
                      Demo.started)
     = log <$> final (download_cell Demo.world 0%nat 3 "p2" None None
                        Demo2.dirty).
Proof.
  assert (H : same_disk Demo.started Demo2.dirty) by (split; reflexivity).
  split; [exact H |].
  exact (proj1 (proj2 (download_cell_ignores_heap Demo.world 0%nat 0%nat 3
                         "p2" None None Demo.started Demo2.dirty H))).
Defined.


Lemma cap_holds_from_one_witness :
  final (get_items Demo2.line 3 "p1" None (Some 1) 0 0%nat Demo.started)
  = Some (default Demo.started
            (final (get_items Demo2.line 3 "p1" None (Some 1) 0 0%nat
                      Demo.started)))
  /\ exists es,
       log (default Demo.started
              (final (get_items Demo2.line 3 "p1" None (Some 1) 0 0%nat
                        Demo.started)))
       = log Demo.started ++ es
       /\ Z.of_nat (List.length (expanded es)) <= 1.
Proof.
  assert (F : final (get_items Demo2.line 3 "p1" None (Some 1) 0 0%nat
                       Demo.started)
              = Some (default Demo.started
                        (final (get_items Demo2.line 3 "p1" None (Some 1) 0
                                  0%nat Demo.started))))
    by (vm_compute; reflexivity).
  split; [exact F |].
  apply (cap_holds_from_one Demo2.line None 1 0%nat 3 "p1" Demo.started _
           line_single_next); [lia | exact F].
Defined.

(** ** The pool under any schedule *)











Section Pool.

Variable W : World.
Variable root : string.
Variable hrefs : list string.
Variable s0 : state.
Hypothesis apart : NoDup (omap (date_dir W root) hrefs).














End Pool.




(** Two workers bound for the same date directory: one after the other
    they both finish; when each has looked for the directory before the
    other has made it, the second [os.makedirs] raises. *)
Example twin_workers_collide :
  dates_apart Demo.world Demo3.twin = false
  /\ fst (pool_threads [] (source_threads Demo.world Demo3.twin)
            Demo.started)
     = [Finished [("api/s1/B02", "landcovernet/twin/2018_01_05");
                  ("api/s1/B03", "landcovernet/twin/2018_01_05")];
        Finished [("api/s1/B02", "landcovernet/twin/2018_01_05");
                  ("api/s1/B03", "landcovernet/twin/2018_01_05")]]
  /\ fst (pool_threads [0; 1; 0; 1; 0; 1]%nat
            (source_threads Demo.world Demo3.twin) Demo.started)
     = [Finished [("api/s1/B02", "landcovernet/twin/2018_01_05");
                  ("api/s1/B03", "landcovernet/twin/2018_01_05")];
        FileExists "landcovernet/twin/2018_01_05"].
Proof. repeat split; vm_compute; reflexivity. Qed.

